(** * MailSort: the dashboard (frontend/main.js) and the triage engine

    Part I embeds the browser dashboard, [frontend/main.js]: the chart
    geometry of [renderCountsChart], the click handler of the Train
    button and the Recovery view with its promote buttons; then
    [postJSON], the Process handler and the labelling form.

    Part II models the triage engine that the dashboard calls through
    [/api/train], [/api/process], [/api/recovery] and [/api/promote].
    The backend ([app.py]) is not part of the sources at hand; its
    definitions follow the specification and say so.

    Parts III and IV state and prove the properties of the two. *)

From Stdlib Require Import Ascii QArith Qround Qminmax Lqa.
From stdpp Require Import base list strings gmap sorting.
From Stdlib Require Import DecimalString DecimalNat.

(** * Part I: the dashboard, [frontend/main.js] *)

Module Dashboard.

(** ** JavaScript values the handlers work with *)

(** A JavaScript number is a double: [NaN], an infinity, or a finite
    value, kept as the rational it is.  The sign of a zero is not kept:
    both zeros are falsy, compare alike, and the program divides by
    [maxVal] only, which is never a zero. *)
Inductive JsNum :=
  | NaN
  | Infinity (negative : bool)
  | Num (q : Q).

(** [!x] on a string: only the empty string is falsy. *)
Definition str_truthy (s : string) : bool :=
  match s with
  | EmptyString => false
  | String _ _ => true
  end.

(** [!x] on a number: [NaN] and zero are falsy. *)
Definition num_truthy (n : JsNum) : bool :=
  match n with
  | NaN => false
  | Infinity _ => true
  | Num q => negb (Qeq_bool q 0)
  end.

(** [a <= b]: a comparison with [NaN] is false. *)
Definition num_le (a b : JsNum) : bool :=
  match a, b with
  | NaN, _ => false
  | _, NaN => false
  | Infinity true, _ => true
  | _, Infinity false => true
  | Infinity false, _ => false
  | _, Infinity true => false
  | Num x, Num y => Qle_bool x y
  end.

(** [a < b]. *)
Definition num_lt (a b : JsNum) : bool :=
  match a, b with
  | NaN, _ => false
  | _, NaN => false
  | _, _ => negb (num_le b a)
  end.

(** [x < 1]. *)
Definition num_lt1 (n : JsNum) : bool := num_lt n (Num 1).

(** [a || b] on strings. *)
Definition str_or (a b : string) : string :=
  if str_truthy a then a else b.

(** The double nearest to an integer, a tie going to the even
    significand: an integer of more than 53 bits loses its low bits, and
    one that rounds to 2^1024 or beyond is an infinity. *)
Definition double_of_int (z : Z) : JsNum :=
  let m := Z.abs z in
  let e := Z.log2 m in
  if (e <=? 52)%Z then Num (inject_Z z)
  else
    let s := (e - 52)%Z in
    let q := Z.shiftr m s in
    let r := (m - Z.shiftl q s)%Z in
    let half := Z.shiftl 1 (s - 1) in
    let q' := if ((half <? r) || ((half =? r) && Z.odd q))%Z%bool
              then (q + 1)%Z else q in
    let v := Z.shiftl q' s in
    if (2 ^ 1024 <=? v)%Z then Infinity (z <? 0)%Z
    else Num (inject_Z (Z.sgn z * v)).

(** A DOM string is kept as its UTF-8 bytes (an unpaired surrogate as
    the three bytes of its code point).  White space that
    [parseInt] strips from the front of its argument is every
    StrWhiteSpaceChar: TAB, LF, VT, FF, CR, SP, and beyond ASCII U+00A0,
    U+1680, U+2000 to U+200A, U+2028, U+2029, U+202F, U+205F, U+3000 and
    U+FEFF, of two or three bytes each. *)
Definition is_js_space (c : ascii) : bool :=
  let n := nat_of_ascii c in
  (Nat.eqb n 9 || Nat.eqb n 10 || Nat.eqb n 11 || Nat.eqb n 12
   || Nat.eqb n 13 || Nat.eqb n 32)%bool.

(** U+00A0 is the bytes C2 A0. *)
Definition is_js_space2 (c1 c2 : ascii) : bool :=
  (Nat.eqb (nat_of_ascii c1) 194 && Nat.eqb (nat_of_ascii c2) 160)%bool.

(** U+1680 is E1 9A 80; U+2000 to U+200A are E2 80 80 to E2 80 8A;
    U+2028, U+2029 and U+202F are E2 80 A8, E2 80 A9 and E2 80 AF;
    U+205F is E2 81 9F; U+3000 is E3 80 80; U+FEFF is EF BB BF. *)
Definition is_js_space3 (c1 c2 c3 : ascii) : bool :=
  let n1 := nat_of_ascii c1 in
  let n2 := nat_of_ascii c2 in
  let n3 := nat_of_ascii c3 in
  ((Nat.eqb n1 225 && Nat.eqb n2 154 && Nat.eqb n3 128)
   || (Nat.eqb n1 226 && Nat.eqb n2 128
       && ((Nat.leb 128 n3 && Nat.leb n3 138)
           || Nat.eqb n3 168 || Nat.eqb n3 169 || Nat.eqb n3 175))
   || (Nat.eqb n1 226 && Nat.eqb n2 129 && Nat.eqb n3 159)
   || (Nat.eqb n1 227 && Nat.eqb n2 128 && Nat.eqb n3 128)
   || (Nat.eqb n1 239 && Nat.eqb n2 187 && Nat.eqb n3 191))%bool.

Definition digit_of (c : ascii) : option Z :=
  let n := nat_of_ascii c in
  if (Nat.leb 48 n && Nat.leb n 57)%bool then Some (Z.of_nat (n - 48)) else None.

Fixpoint skip_space (s : string) : string :=
  match s with
  | EmptyString => EmptyString
  | String c1 s1 =>
      if is_js_space c1 then skip_space s1
      else
        match s1 with
        | EmptyString => s
        | String c2 s2 =>
            if is_js_space2 c1 c2 then skip_space s2
            else
              match s2 with
              | EmptyString => s
              | String c3 s3 =>
                  if is_js_space3 c1 c2 c3 then skip_space s3 else s
              end
        end
  end.

(** The longest prefix of decimal digits, read most significant first. *)
Fixpoint read_digits (acc : option Z) (s : string) : option Z :=
  match s with
  | String c s' =>
      match digit_of c with
      | Some d => read_digits (Some (10 * default 0%Z acc + d)%Z) s'
      | None => acc
      end
  | EmptyString => acc
  end.

(** [parseInt(s, 10)]: leading white space, an optional sign, then as
    many decimal digits as there are; [NaN] when there is none, and else
    the double nearest to the integer read.  (Past 20 significant digits
    the standard lets an implementation approximate; the result is an
    integer or an infinity all the same.) *)
Definition parseInt10 (s : string) : JsNum :=
  let s1 := skip_space s in
  let '(neg, s2) :=
    match s1 with
    | String "-"%char r => (true, r)
    | String "+"%char r => (false, r)
    | _ => (false, s1)
    end in
  match read_digits None s2 with
  | None => NaN
  | Some m => double_of_int (if neg then - m else m)%Z
  end.

(** ** Effects of a handler *)

(** One entry of [data.samples] in the response of [/api/train]. *)
Record Sample := {
  sample_email_id : string;
  sample_subject : string;
  sample_summary : string
}.

(** One labelled entry of the body of [/api/label]. *)
Record LabelItem := {
  label_email_id : string;
  label_subject : string;
  label_summary : string;
  label_value : string
}.

(** The body of a POST request, [JSON.stringify(payload)], kept as the
    object it was built from. *)
Inductive Payload :=
  | TrainPayload (start_date : string) (limit : JsNum)
  | LabelPayload (items : list LabelItem)
  | RecoveryPayload (start_date : string)
  | PromotePayload (email_id : option string) (new_priority : option string).

(** What a handler does to the page and to the network, in program
    order.  [AppendItem parent html] stands for the four statements
    that create a [div], set its class to [item], set its [innerHTML]
    and append it to [parent]. *)
Inductive Effect :=
  | SetText (element_id : string) (text : string)
  | SetHTML (element_id : string) (html : string)
  | AddClass (element_id : string) (cls : string)
  | RemoveClass (element_id : string) (cls : string)
  | AppendItem (parent_id : string) (html : string)
  | InstallSubmit (samples : list Sample)
  | Alert (text : string)
  | Click (element_id : string)
  | PostJSON (url : string) (payload : Payload).

(** How [await postJSON(url, payload)] (lines 2-13) comes back: it
    throws an [Error] with a message, or it returns the parsed body. *)
Inductive Reply (A : Type) :=
  | Failed (message : string)
  | Replied (data : A).

Arguments Failed {A} message.
Arguments Replied {A} data.

Definition dq : string := String "034"%char EmptyString.
Definition nl : string := String "010"%char EmptyString.

(** [name="value"] as the templates write it. *)
Definition attr (name value : string) : string :=
  name +:+ "=" +:+ dq +:+ value +:+ dq.

(** [`${n}`] for a non-negative integer. *)
Definition show_nat (n : nat) : string :=
  NilZero.string_of_uint (Nat.to_uint n).

(** ** Train: the click handler of [btn-train] (lines 74-137) *)

Definition validation_message : string :=
  "Provide a valid date and positive sample count.".

(** The body of [/api/train]'s response: [data.message] and
    [data.samples], either of which may be missing. *)
Record TrainData := {
  train_message : option string;
  train_samples : list Sample
}.

(** One radio button of the labelling form (lines 101-103). *)
Definition radio_html (i : nat) (value : string) : string :=
  "            <label><input " +:+ attr "type" "radio" +:+ " "
    +:+ attr "name" ("label_" +:+ show_nat i) +:+ " "
    +:+ attr "value" value +:+ "> " +:+ value +:+ "</label>" +:+ nl.

(** The template literal of lines 97-105. *)
Definition sample_html (i : nat) (s : Sample) : string :=
  nl +:+
  "          <div " +:+ attr "class" "subject" +:+ ">"
    +:+ show_nat (i + 1) +:+ ". " +:+ sample_subject s +:+ "</div>" +:+ nl +:+
  "          <div>" +:+ sample_summary s +:+ "</div>" +:+ nl +:+
  "          <div " +:+ attr "style" "margin-top:8px" +:+ ">" +:+ nl +:+
  radio_html i "HIGH" +:+ radio_html i "MEDIUM" +:+ radio_html i "LOW" +:+
  "          </div>" +:+ nl +:+
  "        ".

(** Lines 91-136: what the handler does once [postJSON] is back. *)
Definition train_on_reply (reply : Reply TrainData) : list Effect :=
  match reply with
  | Failed message => [ SetText "train-results" ("Error: " +:+ message) ]
  | Replied data =>
      SetText "train-results" (default EmptyString (train_message data))
      :: match train_samples data with
         | [] => []
         | _ :: _ =>
             imap (fun i s => AppendItem "label-area" (sample_html i s))
                  (train_samples data)
             ++ [ RemoveClass "btn-submit-labels" "hidden";
                  InstallSubmit (train_samples data) ]
         end
  end.

(** The handler; [reply] is consulted only if the request is made. *)
Definition btn_train_click (train_date train_limit : string)
    (reply : Reply TrainData) : list Effect :=
  let startDate := train_date in
  let limit := parseInt10 (str_or train_limit "0") in
  [ SetText "train-results" EmptyString;
    SetHTML "label-area" EmptyString;
    AddClass "btn-submit-labels" "hidden" ] ++
  if (negb (str_truthy startDate) || negb (num_truthy limit) || num_lt1 limit)%bool
  then [ SetText "train-results" validation_message ]
  else PostJSON "/api/train" (TrainPayload startDate limit)
       :: train_on_reply reply.

(** The [onclick] that [InstallSubmit samples] installs (lines 109-132);
    [checked i] is the value of the radio button checked in group
    [label_i], if any, and [reply] the [message] of the response. *)
Definition btn_submit_labels_click (samples : list Sample)
    (checked : nat -> option string) (reply : Reply (option string))
  : list Effect :=
  let items :=
    omap (fun p : nat * Sample =>
            match checked p.1 with
            | Some v =>
                Some {| label_email_id := sample_email_id p.2;
                        label_subject := sample_subject p.2;
                        label_summary := sample_summary p.2;
                        label_value := v |}
            | None => None
            end)
         (imap pair samples) in
  match items with
  | [] => [ Alert "Please label at least one item." ]
  | _ :: _ =>
      PostJSON "/api/label" (LabelPayload items)
      :: match reply with
         | Replied message =>
             [ Alert (str_or (default EmptyString message) "Labels submitted.") ]
         | Failed message => [ Alert ("Error: " +:+ message) ]
         end
  end.

(** ** The chart: [renderCountsChart] (lines 16-71) *)

(** A value of [counts]: a number, or any other value that a JSON reply
    can hold there (a string, a boolean, [null], an array, an object).
    The chart puts a value through two coercions only, and another value
    is kept as what they make of it: [truthy] is its ToBoolean ([||]),
    [number] its ToNumber ([Math.max], [/]).  So the string "abc" is
    [Other true NaN], "12" is [Other true (Num 12)], [null] is
    [Other false (Num 0)] and [true] is [Other true (Num 1)]. *)
Inductive JsValue :=
  | Number (n : JsNum)
  | Other (truthy : bool) (number : JsNum).

Definition to_boolean (v : JsValue) : bool :=
  match v with
  | Number n => num_truthy n
  | Other t _ => t
  end.

Definition to_number (v : JsValue) : JsNum :=
  match v with
  | Number n => n
  | Other _ n => n
  end.

(** [Math.max] of two numbers: [NaN] if either is. *)
Definition num_max (a b : JsNum) : JsNum :=
  match a, b with
  | NaN, _ => NaN
  | _, NaN => NaN
  | _, _ => if num_le a b then b else a
  end.

(** [Math.round]: the nearest integer, a tie going up; [NaN] and the
    infinities stay. *)
Definition Math_round (x : JsNum) : JsNum :=
  match x with
  | Num q => Num (inject_Z (Qfloor (q + (1 # 2))%Q))
  | _ => x
  end.

(** The largest double is 2^1024 - 2^971; a real of magnitude
    2^1024 - 2^970 or more rounds to an infinity. *)
Definition overflow : Q := inject_Z (2 ^ 1024 - 2 ^ 970).

Section Chart.

(** Arithmetic on doubles is the exact operation followed by rounding to
    the nearest double: [rnd] while that is finite.  The development
    uses two facts about [rnd]: it is monotone, and integers of
    magnitude up to 2^53 are doubles. *)
Variable rnd : Q -> Q.

Definition nearest (x : Q) : JsNum :=
  if Qle_bool overflow x then Infinity false
  else if Qle_bool x (- overflow) then Infinity true
  else Num (rnd x).

Definition is_negative (q : Q) : bool := negb (Qle_bool 0 q).

(** [a / b]; a zero divisor counts as [+0]. *)
Definition fdiv (a b : JsNum) : JsNum :=
  match a, b with
  | NaN, _ => NaN
  | _, NaN => NaN
  | Infinity _, Infinity _ => NaN
  | Infinity s, Num y => Infinity (xorb s (is_negative y))
  | Num _, Infinity _ => Num 0
  | Num x, Num y =>
      if Qeq_bool y 0
      then (if Qeq_bool x 0 then NaN else Infinity (is_negative x))
      else nearest (x / y)
  end.

(** [a * b]. *)
Definition fmul (a b : JsNum) : JsNum :=
  match a, b with
  | NaN, _ => NaN
  | _, NaN => NaN
  | Infinity s, Infinity t => Infinity (xorb s t)
  | Infinity s, Num y => if Qeq_bool y 0 then NaN else Infinity (xorb s (is_negative y))
  | Num x, Infinity t => if Qeq_bool x 0 then NaN else Infinity (xorb (is_negative x) t)
  | Num x, Num y => nearest (x * y)
  end.

(** [a - b]; taking a zero away leaves the double as it is. *)
Definition fsub (a b : JsNum) : JsNum :=
  match a, b with
  | NaN, _ => NaN
  | _, NaN => NaN
  | Infinity s, Infinity t => if Bool.eqb s t then NaN else Infinity s
  | Infinity s, Num _ => Infinity s
  | Num _, Infinity t => Infinity (negb t)
  | Num x, Num y => if Qeq_bool y 0 then Num x else nearest (x - y)
  end.

(** [Math.max(1, ...xs)]. *)
Definition Math_max1 (xs : list JsNum) : JsNum := fold_left num_max xs (Num 1).

Definition keys : list string := [ "HIGH"; "MEDIUM"; "LOW" ].

(** [counts[k] || 0]: a missing key ([undefined]) and a falsy value (a
    zero, [NaN], [null], an empty string) give the number 0. *)
Definition count_or0 (counts : gmap string JsValue) (k : string) : JsValue :=
  match counts !! k with
  | Some v => if to_boolean v then v else Number (Num 0)
  | None => Number (Num 0)
  end.

Definition maxVal (counts : gmap string JsValue) : JsNum :=
  Math_max1 (map (fun k => to_number (count_or0 counts k)) keys).

Definition barWidth : Z := 120.
Definition gap : Z := 60.

(** [(W - (barWidth * keys.length + gap * (keys.length - 1))) / 2]; the
    operands are small integers, so every step is exact. *)
Definition leftPad (W : Z) : Q :=
  (inject_Z (W - (barWidth * Z.of_nat (length keys)
                  + gap * (Z.of_nat (length keys) - 1))) / 2)%Q.

(** [H - 40], exact on the integer [H]. *)
Definition bottom (H : Z) : Z := H - 40.

(** The bar drawn for one key: [fillRect(x, bottom - bh, barWidth, bh)]
    and the value written above it. *)
Record Bar := {
  bar_key : string;
  bar_val : JsValue;
  bar_x : Q;
  bar_y : JsNum;
  bar_bh : JsNum
}.

Definition bar (W H : Z) (counts : gmap string JsValue) (i : nat) (k : string)
  : Bar :=
  let val := count_or0 counts k in
  let x := (leftPad W + inject_Z (Z.of_nat i * (barWidth + gap)))%Q in
  let bh := Math_round (fmul (fdiv (to_number val) (maxVal counts))
                             (Num (inject_Z (H - 120)))) in
  {| bar_key := k; bar_val := val; bar_x := x;
     bar_y := fsub (Num (inject_Z (bottom H))) bh; bar_bh := bh |}.

(** [keys.forEach((k, i) => ...)]: the bars in drawing order. *)
Definition renderCountsChart (W H : Z) (counts : gmap string JsValue) : list Bar :=
  imap (bar W H counts) keys.

End Chart.

(** ** The Recovery view (lines 178-227) *)

(** One entry of [data.items] in the response of [/api/recovery]; the
    template literal turns every field into a string. *)
Record RecoveryItem := {
  email_id : string;
  subject : string;
  summary : string;
  gmail_link : string
}.

(** The template literal assigned to [div.innerHTML] (lines 198-206).
    The fields are spliced in as they are: nothing escapes them. *)
Definition item_html (i : nat) (item : RecoveryItem) : string :=
  nl +:+
  "        <div " +:+ attr "class" "subject" +:+ ">"
    +:+ show_nat (i + 1) +:+ ". " +:+ subject item +:+ "</div>" +:+ nl +:+
  "        <div>" +:+ summary item +:+ "</div>" +:+ nl +:+
  "        <div " +:+ attr "style" "margin-top:6px" +:+ "><a "
    +:+ attr "href" (gmail_link item) +:+ " " +:+ attr "target" "_blank"
    +:+ ">Open in Gmail</a></div>" +:+ nl +:+
  "        <div " +:+ attr "style" "margin-top:8px; display:flex; gap:8px;"
    +:+ ">" +:+ nl +:+
  "          <button " +:+ attr "class" "btn-glow promote" +:+ " "
    +:+ attr "data-id" (email_id item) +:+ " " +:+ attr "data-to" "HIGH"
    +:+ ">Promote HIGH</button>" +:+ nl +:+
  "          <button " +:+ attr "class" "btn-glow promote" +:+ " "
    +:+ attr "data-id" (email_id item) +:+ " " +:+ attr "data-to" "MEDIUM"
    +:+ ">Promote MEDIUM</button>" +:+ nl +:+
  "        </div>" +:+ nl +:+
  "      ".

(** Lines 189-208: what the handler does once [postJSON] is back (the
    listeners of lines 210-223 are [promote_click] below). *)
Definition recovery_on_reply (reply : Reply (list RecoveryItem)) : list Effect :=
  match reply with
  | Failed message => [ SetText "recovery-results" ("Error: " +:+ message) ]
  | Replied [] =>
      [ SetText "recovery-results" "No recovery emails since the given date." ]
  | Replied items =>
      imap (fun i item => AppendItem "recovery-results" (item_html i item)) items
  end.

(** The click handler of [btn-recovery] (lines 178-227). *)
Definition btn_recovery_click (recovery_date : string)
    (reply : Reply (list RecoveryItem)) : list Effect :=
  let startDate := recovery_date in
  [ SetHTML "recovery-results" EmptyString ] ++
  if negb (str_truthy startDate)
  then [ SetText "recovery-results" "Provide a start date." ]
  else PostJSON "/api/recovery" (RecoveryPayload startDate)
       :: recovery_on_reply reply.

(** *** What the browser makes of [innerHTML]

    The HTML tokenizer, for tags and their attributes: the states of the
    HTML standard's tokenizer from "data" to "self-closing start tag",
    and those of a comment.  What the browser does to the characters of
    an attribute value is done when the attribute is complete
    ([read_value]): a carriage return becomes a line feed, a NUL the
    replacement character, and character references are decoded; none
    of the three moves the place where the value ends.  The decoding
    needs the standard's table of named references, which is no part of
    the sources: it is the parameter [decode], and is asked only about
    a value that holds an [&].  The content of a raw-text element
    ([script], [style], [textarea], [title]) is read like any other; the
    template has none, and none can start inside text without [<]. *)

(** [char_free x s]: the character [x] does not occur in [s]. *)
Fixpoint char_free (x : ascii) (s : string) : bool :=
  match s with
  | EmptyString => true
  | String c s' => (negb (Ascii.eqb c x) && char_free x s')%bool
  end.

(** U+FFFD, the replacement character, in UTF-8. *)
Definition replacement : string :=
  String "239" (String "191" (String "189" EmptyString)).

(** Newlines are normalised (CR LF and a lone CR become LF) and a NUL
    is replaced. *)
Fixpoint normalize_value (s : string) : string :=
  match s with
  | EmptyString => EmptyString
  | String c s' =>
      if Ascii.eqb c "013" then
        String "010"
          match s' with
          | String c' s'' =>
              if Ascii.eqb c' "010" then normalize_value s'' else normalize_value s'
          | EmptyString => EmptyString
          end
      else if Ascii.eqb c "000" then replacement +:+ normalize_value s'
      else String c (normalize_value s')
  end.

Record Element := {
  tag : string;
  attributes : list (string * string)
}.

Inductive Mode :=
  | Data | TagOpen | EndTagOpen | TagName
  | BeforeAttrName | AttrName | AfterAttrName | BeforeAttrValue
  | AttrValueDQ | AttrValueSQ | AttrValueUnq | AfterAttrValueQ
  | SelfClosing | BogusComment
  | MarkupDecl | MarkupDeclDash
  | CommentStart | CommentStartDash | Comment
  | CommentEndDash | CommentEnd | CommentEndBang.

(** The tokenizer's state: the tag token under construction (its name,
    the attributes kept so far, the attribute being read) and the start
    tags emitted so far, in document order. *)
Record Tok := {
  mode : Mode;
  is_end : bool;
  tname : string;
  tattrs : list (string * string);
  cur : option (string * string);
  emitted : list Element
}.

Definition is_html_space (c : ascii) : bool :=
  let n := nat_of_ascii c in
  (Nat.eqb n 9 || Nat.eqb n 10 || Nat.eqb n 12 || Nat.eqb n 13 || Nat.eqb n 32)%bool.

Definition is_alpha (c : ascii) : bool :=
  let n := nat_of_ascii c in
  ((Nat.leb 65 n && Nat.leb n 90) || (Nat.leb 97 n && Nat.leb n 122))%bool.

Definition lower (c : ascii) : ascii :=
  let n := nat_of_ascii c in
  if (Nat.leb 65 n && Nat.leb n 90)%bool then ascii_of_nat (n + 32) else c.

Definition snoc (s : string) (c : ascii) : string := s +:+ String c EmptyString.

(** A character of a tag name or of an attribute name: in lower case, a
    NUL replaced. *)
Definition name_char (c : ascii) : string :=
  if Ascii.eqb c "000" then replacement else String (lower c) EmptyString.

Definition has_name (n : string) (l : list (string * string)) : bool :=
  existsb (fun p => bool_decide (p.1 = n)) l.

Section Markup.

(** The decoding of the character references of an attribute value. *)
Variable decode : string -> string.

(** The value of an attribute, from the characters between its
    delimiters. *)
Definition read_value (raw : string) : string :=
  let v := normalize_value raw in
  if char_free "&" v then v else decode v.

(** Leaving an attribute: it is kept unless the tag already has one of
    that name (the first of two equal names wins). *)
Definition commit (t : Tok) : list (string * string) :=
  match cur t with
  | Some (n, v) =>
      if has_name n (tattrs t) then tattrs t else tattrs t ++ [(n, read_value v)]
  | None => tattrs t
  end.

Definition set_mode (m : Mode) (t : Tok) : Tok :=
  {| mode := m; is_end := is_end t; tname := tname t; tattrs := tattrs t;
     cur := cur t; emitted := emitted t |}.

(** Emit the tag token: a start tag becomes an element. *)
Definition emit (t : Tok) : Tok :=
  {| mode := Data; is_end := false; tname := EmptyString; tattrs := [];
     cur := None;
     emitted := if is_end t then emitted t
                else emitted t ++ [ {| tag := tname t; attributes := commit t |} ] |}.

Definition new_tag (e : bool) (c : ascii) (t : Tok) : Tok :=
  {| mode := TagName; is_end := e; tname := String (lower c) EmptyString;
     tattrs := []; cur := None; emitted := emitted t |}.

Definition new_attr (name : string) (t : Tok) : Tok :=
  {| mode := AttrName; is_end := is_end t; tname := tname t; tattrs := commit t;
     cur := Some (name, EmptyString); emitted := emitted t |}.

Definition name_snoc (c : ascii) (t : Tok) : Tok :=
  {| mode := mode t; is_end := is_end t; tname := tname t; tattrs := tattrs t;
     cur := match cur t with
            | Some (n, v) => Some (n +:+ name_char c, v)
            | None => None
            end;
     emitted := emitted t |}.

Definition value_snoc (c : ascii) (t : Tok) : Tok :=
  {| mode := mode t; is_end := is_end t; tname := tname t; tattrs := tattrs t;
     cur := match cur t with
            | Some (n, v) => Some (n, snoc v c)
            | None => None
            end;
     emitted := emitted t |}.

Definition tname_snoc (c : ascii) (t : Tok) : Tok :=
  {| mode := mode t; is_end := is_end t; tname := tname t +:+ name_char c;
     tattrs := tattrs t; cur := cur t; emitted := emitted t |}.

Definition after_attr_name (t : Tok) (c : ascii) : Tok :=
  if is_html_space c then set_mode AfterAttrName t
  else if Ascii.eqb c "/" then set_mode SelfClosing t
  else if Ascii.eqb c "=" then set_mode BeforeAttrValue t
  else if Ascii.eqb c ">" then emit t
  else new_attr (name_char c) t.

Definition before_attr_name (t : Tok) (c : ascii) : Tok :=
  if is_html_space c then set_mode BeforeAttrName t
  else if (Ascii.eqb c "/" || Ascii.eqb c ">")%bool then after_attr_name t c
  else new_attr (name_char c) t.

(** A bogus comment (as [<?...] or [<!DOCTYPE ...]) ends at the first
    [>]. *)
Definition bogus_comment (t : Tok) (c : ascii) : Tok :=
  if Ascii.eqb c ">" then set_mode Data t else set_mode BogusComment t.

(** Inside a comment, which ends at [-->] or [--!>]; a [<] inside has no
    effect on where it ends. *)
Definition comment (t : Tok) (c : ascii) : Tok :=
  if Ascii.eqb c "-" then set_mode CommentEndDash t else set_mode Comment t.

(** One step of the tokenizer; "reconsume in state S" is the call of
    S's function on the same character. *)
Definition tok_step (t : Tok) (c : ascii) : Tok :=
  match mode t with
  | Data => if Ascii.eqb c "<" then set_mode TagOpen t else t
  | TagOpen =>
      if Ascii.eqb c "/" then set_mode EndTagOpen t
      else if is_alpha c then new_tag false c t
      else if Ascii.eqb c "!" then set_mode MarkupDecl t
      else if Ascii.eqb c "?" then set_mode BogusComment t
      else if Ascii.eqb c "<" then set_mode TagOpen t
      else set_mode Data t
  | EndTagOpen =>
      if is_alpha c then new_tag true c t
      else bogus_comment t c
  | TagName =>
      if is_html_space c then set_mode BeforeAttrName t
      else if Ascii.eqb c "/" then set_mode SelfClosing t
      else if Ascii.eqb c ">" then emit t
      else tname_snoc c t
  | BeforeAttrName => before_attr_name t c
  | AttrName =>
      if (is_html_space c || Ascii.eqb c "/" || Ascii.eqb c ">")%bool
      then after_attr_name t c
      else if Ascii.eqb c "=" then set_mode BeforeAttrValue t
      else name_snoc c t
  | AfterAttrName => after_attr_name t c
  | BeforeAttrValue =>
      if is_html_space c then t
      else if Ascii.eqb c "034" then set_mode AttrValueDQ t
      else if Ascii.eqb c "'" then set_mode AttrValueSQ t
      else if Ascii.eqb c ">" then emit t
      else value_snoc c (set_mode AttrValueUnq t)
  | AttrValueDQ =>
      if Ascii.eqb c "034" then set_mode AfterAttrValueQ t else value_snoc c t
  | AttrValueSQ =>
      if Ascii.eqb c "'" then set_mode AfterAttrValueQ t else value_snoc c t
  | AttrValueUnq =>
      if is_html_space c then set_mode BeforeAttrName t
      else if Ascii.eqb c ">" then emit t
      else value_snoc c t
  | AfterAttrValueQ =>
      if is_html_space c then set_mode BeforeAttrName t
      else if Ascii.eqb c "/" then set_mode SelfClosing t
      else if Ascii.eqb c ">" then emit t
      else before_attr_name t c
  | SelfClosing =>
      if Ascii.eqb c ">" then emit t else before_attr_name t c
  | BogusComment => bogus_comment t c
  | MarkupDecl =>
      if Ascii.eqb c "-" then set_mode MarkupDeclDash t else bogus_comment t c
  | MarkupDeclDash =>
      if Ascii.eqb c "-" then set_mode CommentStart t else bogus_comment t c
  | CommentStart =>
      if Ascii.eqb c "-" then set_mode CommentStartDash t
      else if Ascii.eqb c ">" then set_mode Data t
      else comment t c
  | CommentStartDash =>
      if Ascii.eqb c "-" then set_mode CommentEnd t
      else if Ascii.eqb c ">" then set_mode Data t
      else comment t c
  | Comment => comment t c
  | CommentEndDash =>
      if Ascii.eqb c "-" then set_mode CommentEnd t else comment t c
  | CommentEnd =>
      if Ascii.eqb c ">" then set_mode Data t
      else if Ascii.eqb c "!" then set_mode CommentEndBang t
      else if Ascii.eqb c "-" then set_mode CommentEnd t
      else comment t c
  | CommentEndBang =>
      if Ascii.eqb c "-" then set_mode CommentEndDash t
      else if Ascii.eqb c ">" then set_mode Data t
      else comment t c
  end.

Fixpoint tok_run (t : Tok) (s : string) : Tok :=
  match s with
  | EmptyString => t
  | String c s' => tok_run (tok_step t c) s'
  end.

Definition tok_init : Tok :=
  {| mode := Data; is_end := false; tname := EmptyString; tattrs := [];
     cur := None; emitted := [] |}.

(** The elements that [x.innerHTML = html] creates below [x], in
    document order; a tag still open at the end of the input is dropped. *)
Definition parse_fragment (html : string) : list Element :=
  emitted (tok_run tok_init html).

(** [el.getAttribute(name)]: [null] when the attribute is absent. *)
Definition getAttribute (name : string) (el : Element) : option string :=
  snd <$> find (fun p => bool_decide (p.1 = name)) (attributes el).

(** The class attribute split at white space. *)
Fixpoint words_from (word : string) (s : string) : list string :=
  match s with
  | EmptyString => if str_truthy word then [ word ] else []
  | String c s' =>
      if is_html_space c
      then (if str_truthy word then word :: words_from EmptyString s'
            else words_from EmptyString s')
      else words_from (snoc word c) s'
  end.

Definition classList (el : Element) : list string :=
  match getAttribute "class" el with
  | Some v => words_from EmptyString v
  | None => []
  end.

(** Does the selector [.cls] match the element? *)
Definition has_class (cls : string) (el : Element) : bool :=
  bool_decide (cls ∈ classList el).

(** [document.createElement("div")] with [className = "item"]. *)
Definition item_div : Element :=
  {| tag := "div"; attributes := [ ("class", "item") ] |}.

(** The elements that an effect adds to the page. *)
Definition elements_of (e : Effect) : list Element :=
  match e with
  | AppendItem _ html => item_div :: parse_fragment html
  | _ => []
  end.

(** The elements below [out] once the response is rendered (lines
    195-208): for each item the [div] and what its [innerHTML] holds. *)
Definition recovery_view (items : list RecoveryItem) : list Element :=
  mjoin (map elements_of (recovery_on_reply (Replied items))).

(** [out.querySelectorAll(".promote")]. *)
Definition promote_buttons (items : list RecoveryItem) : list Element :=
  filter (fun el => has_class "promote" el = true) (recovery_view items).

(** The request of the click listener of a promote button (lines
    212-215).  A button of the template holds text only, so [e.target]
    is the button itself. *)
Definition promote_request (target : Element) : Effect :=
  let id := getAttribute "data-id" target in
  let to := getAttribute "data-to" target in
  PostJSON "/api/promote" (PromotePayload id to).

(** The click listener of a promote button (lines 211-222); [reply] is
    the [message] of the response. *)
Definition promote_click (target : Element) (reply : Reply (option string))
  : list Effect :=
  promote_request target
  :: match reply with
     | Replied message =>
         [ Alert (str_or (default EmptyString message) "Promoted");
           Click "btn-recovery" ]
     | Failed message => [ Alert ("Error: " +:+ message) ]
     end.

(** Every promote request that the rendered view can issue: one for
    each element that got the listener. *)
Definition promote_requests (items : list RecoveryItem) : list Effect :=
  map promote_request (promote_buttons items).

(** The elements below [labelArea] once the samples are rendered. *)
Definition label_area (samples : list Sample) : list Element :=
  mjoin (map elements_of
           (train_on_reply
              (Replied {| train_message := None; train_samples := samples |}))).

(** The elements that [input[name="..."]] selects. *)
Definition named_inputs (name : string) (els : list Element) : list Element :=
  filter (fun el => tag el = "input" /\ getAttribute "name" el = Some name) els.

(** The radio group of the sample at index [i]. *)
Definition radio_group (i : nat) (samples : list Sample) : list Element :=
  named_inputs ("label_" +:+ show_nat i) (label_area samples).

(** The choice of the user comes from the form: a checked value of
    group [i] is the value of one of the group's rendered buttons. *)
Definition chosen_in_form (samples : list Sample) (checked : nat -> option string)
  : Prop :=
  forall (i : nat) (v : string), checked i = Some v ->
    Some v ∈ map (getAttribute "value") (radio_group i samples).

(** The promote button of the template for an item. *)
Definition promote_button (item : RecoveryItem) (to : string) : Element :=
  {| tag := "button";
     attributes := [ ("class", "btn-glow promote");
                     ("data-id", read_value (email_id item)); ("data-to", to) ] |}.

(** The elements that the template spells out. *)
Definition template_elements (item : RecoveryItem) : list Element :=
  [ {| tag := "div"; attributes := [ ("class", "subject") ] |};
    {| tag := "div"; attributes := [] |};
    {| tag := "div"; attributes := [ ("style", "margin-top:6px") ] |};
    {| tag := "a";
       attributes := [ ("href", read_value (gmail_link item));
                       ("target", "_blank") ] |};
    {| tag := "div";
       attributes := [ ("style", "margin-top:8px; display:flex; gap:8px;") ] |};
    promote_button item "HIGH";
    promote_button item "MEDIUM" ].

End Markup.

(** ** Predicates and sample data used in the statements of Part III *)

(** [at_least q n]: the number [n] is [q] or more. *)
Definition at_least (q : Q) (n : JsNum) : Prop :=
  match n with
  | NaN => False
  | Infinity negative => negative = false
  | Num x => (q <= x)%Q
  end.

(** [is_num n q]: the number [n] is finite, of value [q]. *)
Definition is_num (n : JsNum) (q : Q) : Prop :=
  exists x : Q, n = Num x /\ (x == q)%Q.

(** The input that passes the guard of Train: a start date and a limit
    that parses to a number of at least 1. *)
Definition valid_train_input (train_date train_limit : string) : Prop :=
  train_date <> EmptyString /\
  at_least 1 (parseInt10 (str_or train_limit "0")).

(** A limit of 400 digits: 1 followed by 399 zeros. *)
Definition long_limit : string :=
  String "1" (fold_right String EmptyString (repeat "0"%char 399)).

(** What the handler does before anything else: it clears the panel. *)
Definition train_reset : list Effect :=
  [ SetText "train-results" EmptyString;
    SetHTML "label-area" EmptyString;
    AddClass "btn-submit-labels" "hidden" ].

(** An item whose fields cannot open a tag where the template puts
    them: no [<] in the two fields spliced into text, no double quote
    in the two fields spliced into a quoted attribute value. *)
Definition plain_item (item : RecoveryItem) : Prop :=
  char_free "<" (subject item) = true /\
  char_free "<" (summary item) = true /\
  char_free "034" (gmail_link item) = true /\
  char_free "034" (email_id item) = true.

(** A value that the browser keeps as it stands when it reads it from
    markup: no [&] (no character reference), no carriage return (it
    would become a line feed) and no NUL (it would be replaced). *)
Definition verbatim (s : string) : Prop :=
  char_free "&" s = true /\ char_free "013" s = true /\ char_free "000" s = true.

(** The values of [counts] that the chart reads are numbers. *)
Definition numeric_counts (counts : gmap string JsValue) : Prop :=
  forall (k : string) (v : JsValue),
    In k keys -> counts !! k = Some v -> exists n : JsNum, v = Number n.

(** The values of [counts] that the chart reads are finite numbers, none
    below zero. *)
Definition nonneg_counts (counts : gmap string JsValue) : Prop :=
  forall (k : string) (v : JsValue),
    In k keys -> counts !! k = Some v ->
    exists q : Q, v = Number (Num q) /\ (0 <= q)%Q.

(** [never_above x y]: [x > y] is false. *)
Definition never_above (x y : JsNum) : Prop := num_lt y x = false.

(** A message whose subject line carries a button of its own. *)
Definition crafted_item : RecoveryItem :=
  {| email_id := "17";
     subject := "<button " +:+ attr "class" "promote" +:+ " "
                +:+ attr "data-id" "17" +:+ " " +:+ attr "data-to" "LOW"
                +:+ ">Keep</button>";
     summary := "Weekly digest";
     gmail_link := "https://mail.google.com/mail/u/0/#all/17" |}.

(** As [crafted_item], with the button in the summary. *)
Definition crafted_summary : RecoveryItem :=
  {| email_id := "17";
     subject := "Weekly digest";
     summary := subject crafted_item;
     gmail_link := "https://mail.google.com/mail/u/0/#all/17" |}.

(** A link that closes its attribute and its tag, and goes on with a
    button. *)
Definition crafted_link : RecoveryItem :=
  {| email_id := "17";
     subject := "Weekly digest";
     summary := "Offers";
     gmail_link := "#" +:+ dq +:+ ">" +:+ subject crafted_item +:+ "<a "
                   +:+ "href=" +:+ dq +:+ "#" |}.

(** An id that closes its attribute and brings a [data-to] of its own,
    ahead of the template's. *)
Definition crafted_id : RecoveryItem :=
  {| email_id := "17" +:+ dq +:+ " data-to=" +:+ dq +:+ "LOW";
     subject := "Weekly digest";
     summary := "Offers";
     gmail_link := "https://mail.google.com/mail/u/0/#all/17" |}.

Definition sample_item : RecoveryItem :=
  {| email_id := "42";
     subject := "Newsletter";
     summary := "Weekly digest & offers";
     gmail_link := "https://mail.google.com/mail/u/0/#all/42" |}.

Definition sample_counts : gmap string JsValue :=
  <[ "HIGH" := Number (Num 3) ]> (<[ "LOW" := Number (Num 1) ]> ∅).

(** ** [postJSON] (lines 2-13) *)

(** The response that [fetch] resolves to: its status, its body as text
    ([res.text()]) and its body read as JSON ([res.json()], which
    throws on a body that is not JSON). *)
Record HttpResponse (A : Type) := {
  res_status : nat;
  res_text : string;
  res_json : Reply A
}.

Arguments res_status {A} _.
Arguments res_text {A} _.
Arguments res_json {A} _.

(** [res.ok]: the status is in the range 200-299. *)
Definition res_ok {A : Type} (res : HttpResponse A) : bool :=
  (Nat.leb 200 (res_status res) && Nat.leb (res_status res) 299)%bool.

(** How [await fetch(url, ...)] settles: it rejects (no connection) or
    resolves to a response. *)
Inductive Fetched (A : Type) :=
  | FetchRejected (message : string)
  | FetchResolved (res : HttpResponse A).

Arguments FetchRejected {A} message.
Arguments FetchResolved {A} res.

(** [postJSON] after the request is sent: a response that is not [ok]
    is thrown as an [Error] whose message is the body, or [HTTP] and the
    status when the body is empty. *)
Definition postJSON {A : Type} (fetched : Fetched A) : Reply A :=
  match fetched with
  | FetchRejected message => Failed message
  | FetchResolved res =>
      if negb (res_ok res)
      then Failed (str_or (res_text res) ("HTTP " +:+ show_nat (res_status res)))
      else res_json res
  end.

(** ** Process: the click handler of [btn-process] (lines 140-175) *)

(** One entry of [data.items] in the response of [/api/process], as far
    as the template reads it. *)
Record ProcessedItem := {
  processed_subject : string;
  processed_priority : string;
  processed_summary : string;
  processed_link : string
}.

(** The body of [/api/process]'s response; either field may be missing. *)
Record ProcessData := {
  moved_counts : option (gmap string JsValue);
  processed_items : option (list ProcessedItem)
}.

(** What the Process handler does: the effects of the other handlers,
    its own request with the body [{ start_date }], the header [div]
    (created, filled and appended, with no class), and the call of
    [renderCountsChart(canvas, counts)]. *)
Inductive ProcessEffect :=
  | Page (e : Effect)
  | PostProcess (start_date : string)
  | AppendHeader (html : string)
  | DrawChart (counts : gmap string JsValue).

(** The template literal of line 154; [show_number] is [`${x}`] on a
    value. *)
Definition header_html (show_number : JsValue -> string)
    (counts : gmap string JsValue)
  : string :=
  "<strong>Moved:</strong> HIGH " +:+ show_number (count_or0 counts "HIGH")
  +:+ ", MEDIUM " +:+ show_number (count_or0 counts "MEDIUM")
  +:+ ", LOW " +:+ show_number (count_or0 counts "LOW").

(** The template literal of lines 160-166. *)
Definition processed_html (item : ProcessedItem) : string :=
  nl +:+
  "        <div " +:+ attr "class" "subject" +:+ ">"
    +:+ processed_subject item +:+ nl +:+
  "          <span " +:+ attr "class" ("badge " +:+ processed_priority item)
    +:+ ">" +:+ processed_priority item +:+ "</span>" +:+ nl +:+
  "        </div>" +:+ nl +:+
  "        <div>" +:+ processed_summary item +:+ "</div>" +:+ nl +:+
  "        <div " +:+ attr "style" "margin-top:6px" +:+ "><a "
    +:+ attr "href" (processed_link item) +:+ " " +:+ attr "target" "_blank"
    +:+ ">Open in Gmail</a></div>" +:+ nl +:+
  "      ".

(** Lines 151-174: what the handler does once [postJSON] is back.
    [data.items.forEach] on a reply without [items] throws a
    [TypeError], whose message [type_error] is the browser's; the
    [catch] then overwrites the panel, header included. *)
Definition process_on_reply (show_number : JsValue -> string) (type_error : string)
    (reply : Reply ProcessData) : list ProcessEffect :=
  match reply with
  | Failed message =>
      [ Page (SetText "process-results" ("Error: " +:+ message)) ]
  | Replied data =>
      let counts := default ∅ (moved_counts data) in
      AppendHeader (header_html show_number counts)
      :: match processed_items data with
         | None =>
             [ Page (SetText "process-results" ("Error: " +:+ type_error)) ]
         | Some items =>
             map (fun item =>
                    Page (AppendItem "process-results" (processed_html item)))
                 items
             ++ [ DrawChart counts ]
         end
  end.

(** The handler; [reply] is consulted only if the request is made. *)
Definition btn_process_click (show_number : JsValue -> string) (type_error : string)
    (process_date : string) (reply : Reply ProcessData) : list ProcessEffect :=
  let startDate := process_date in
  [ Page (SetHTML "process-results" EmptyString) ] ++
  if negb (str_truthy startDate)
  then [ Page (SetText "process-results" "Provide a start date.") ]
  else PostProcess startDate
       :: process_on_reply show_number type_error reply.

(** The charts that a run of the handler draws on a canvas of width [W]
    and height [H], in order. *)
Definition charts_drawn (rnd : Q -> Q) (W H : Z) (effects : list ProcessEffect)
  : list (list Bar) :=
  omap (fun e =>
          match e with
          | DrawChart counts => Some (renderCountsChart rnd W H counts)
          | _ => None
          end) effects.

(** ** More predicates and sample data for Part III *)

(** A sample whose fields cannot open a tag where the template puts
    them. *)
Definition plain_sample (s : Sample) : Prop :=
  char_free "<" (sample_subject s) = true /\
  char_free "<" (sample_summary s) = true.

(** A radio button as the template spells it. *)
Definition radio_input (i : nat) (value : string) : Element :=
  {| tag := "input";
     attributes := [ ("type", "radio"); ("name", "label_" +:+ show_nat i);
                     ("value", value) ] |}.

(** The elements that the template of a sample spells out. *)
Definition sample_elements (i : nat) : list Element :=
  [ {| tag := "div"; attributes := [ ("class", "subject") ] |};
    {| tag := "div"; attributes := [] |};
    {| tag := "div"; attributes := [ ("style", "margin-top:8px") ] |};
    {| tag := "label"; attributes := [] |}; radio_input i "HIGH";
    {| tag := "label"; attributes := [] |}; radio_input i "MEDIUM";
    {| tag := "label"; attributes := [] |}; radio_input i "LOW" ].

(** No digit at the front: where [parseInt] stops reading. *)
Definition no_leading_digit (s : string) : Prop :=
  match s with
  | String c _ => digit_of c = None
  | EmptyString => True
  end.




Definition sample_one : Sample :=
  {| sample_email_id := "7"; sample_subject := "Invoice due";
     sample_summary := "Payment is due & overdue" |}.

Definition sample_two : Sample :=
  {| sample_email_id := "8"; sample_subject := "Newsletter";
     sample_summary := "Weekly digest" |}.

Definition not_found_response : HttpResponse TrainData :=
  {| res_status := 404; res_text := EmptyString;
     res_json := Failed "Unexpected token" |}.

(** The entry that the submit handler pushes for a labelled sample. *)
Definition labelled (s : Sample) (v : string) : LabelItem :=
  {| label_email_id := sample_email_id s;
     label_subject := sample_subject s;
     label_summary := sample_summary s;
     label_value := v |}.

Definition check_second (i : nat) : option string :=
  if Nat.eqb i 1 then Some "LOW" else None.

(** The requests among the effects of the Process handler. *)
Definition process_requests (effects : list ProcessEffect) : list string :=
  omap (fun e => match e with PostProcess d => Some d | _ => None end) effects.

(** The requests among the effects of the other handlers. *)
Definition requests (effects : list Effect) : list (string * Payload) :=
  omap (fun e => match e with PostJSON u p => Some (u, p) | _ => None end) effects.

Definition reply_without_counts : Reply ProcessData :=
  Replied {| moved_counts := None;
             processed_items :=
               Some [ {| processed_subject := "Server down";
                         processed_priority := "HIGH";
                         processed_summary := "Disk full";
                         processed_link := "https://mail.google.com/" |} ] |}.

End Dashboard.

(** * Part II: the triage engine behind the API

    The engine is the program that [python app.py] starts; its source is
    not among the files at hand.  Every definition of this module is
    written from the specification, section by section. *)

Module Engine.

(** Modelled from the spec: the label of section 3 (the engine's source
    is missing), one of HIGH, MEDIUM, LOW. *)
Inductive Label := HIGH | MEDIUM | LOW.

#[global] Instance Label_eq_dec : EqDecision Label.
Proof. solve_decision. Defined.

(** Modelled from the spec: the [new_priority] of Promote in the table
    of section 6, which ranges over HIGH and MEDIUM only. *)
Inductive PromoteLabel := ToHIGH | ToMEDIUM.

#[global] Instance PromoteLabel_eq_dec : EqDecision PromoteLabel.
Proof. solve_decision. Defined.

(** Modelled from the spec: PROMOTED(HIGH|MEDIUM) of section 4.4, the
    label that a promotion target stands for. *)
Definition label_of (p : PromoteLabel) : Label :=
  match p with
  | ToHIGH => HIGH
  | ToMEDIUM => MEDIUM
  end.

(** Modelled from the spec: the error taxonomy of section 7. *)
Inductive Error :=
  | TransientProtocolError
  | NotFound
  | InsufficientData
  | InvalidTransition
  | ClassifierMismatch.

(** Modelled from the spec: an operation that may fail with one of the
    errors above; the error is on the left. *)
Definition Result (A : Type) : Type := (Error + A)%type.

(** Modelled from the spec: the mailbox-assigned id of a message
    (section 3). *)
Definition MsgId : Type := nat.

(** Modelled from the spec: dates and times ([received-at], [moved-at],
    a start date), as a number that grows with time. *)
Definition Time : Type := N.

(** Modelled from the spec: a folder of the mail store, by its name. *)
Definition Folder : Type := string.

(** Modelled from the spec: the fixed-size numeric vector of section
    4.2. *)
Definition FeatureVector : Type := list Z.

(** Modelled from the spec: the Message snapshot of section 3. *)
Record Message := {
  id : MsgId;
  subject : string;
  body_summary : string;
  received_at : Time;
  current_folder : Folder
}.

(** Modelled from the spec: the TrainingSample of section 3. *)
Record TrainingSample := {
  sample_id : MsgId;
  sample_subject : string;
  sample_summary : string;
  sample_label : Label
}.

(** Modelled from the spec: the OutcomeRecord of section 3. *)
Record OutcomeRecord := {
  message_id : MsgId;
  assigned_label : Label;
  destination_folder : Folder;
  moved_at : Time
}.

(** ** The Mailbox Session (section 4.1)

    The mail store is the list of its messages, each in one folder.  A
    call that gets through succeeds or reports [NotFound]; whether it
    gets through is the matter of [Network] below. *)

(** Modelled from the spec: the snapshot of a message after it was
    moved; only [current-folder] differs. *)
Definition in_folder (dest : Folder) (m : Message) : Message :=
  {| id := id m; subject := subject m; body_summary := body_summary m;
     received_at := received_at m; current_folder := dest |}.

(** Modelled from the spec: "ordered by receipt time ascending"
    (section 4.1), on (id, received-at) pairs. *)
Definition earlier (a b : MsgId * Time) : Prop := (a.2 <= b.2)%N.

#[global] Instance earlier_dec : RelDecision earlier.
Proof. intros a b. unfold earlier. apply _. Defined.

(** Modelled from the spec: what [search-since] reads of a mailbox,
    the ids and the receipt times. *)
Definition arrivals (mb : list Message) : list (MsgId * Time) :=
  map (fun m => (id m, received_at m)) mb.

(** Modelled from the spec: [search-since(date)] of section 4.1, the
    ids of the messages received on or after [date], by receipt time. *)
Definition search_since (date : Time) (mb : list Message) : list MsgId :=
  map fst (merge_sort earlier
             (filter (fun a => (date <= a.2)%N) (arrivals mb))).

(** Modelled from the spec: [fetch(id)] of section 4.1; [NotFound] when
    the id is no longer there. *)
Definition fetch (i : MsgId) (mb : list Message) : Result Message :=
  match find (fun m => bool_decide (id m = i)) mb with
  | Some m => inr m
  | None => inl NotFound
  end.

(** Modelled from the spec: the effect of a successful [move] on the
    mail store. *)
Definition relocate (i : MsgId) (dest : Folder) (mb : list Message) : list Message :=
  map (fun m => if bool_decide (id m = i) then in_folder dest m else m) mb.

(** Modelled from the spec: [move(id, destination-folder)] of section
    4.1; [NotFound] when the message is absent, success also when it is
    in the destination already. *)
Definition move (i : MsgId) (dest : Folder) (mb : list Message)
  : Result unit * list Message :=
  if existsb (fun m => bool_decide (id m = i)) mb
  then (inr tt, relocate i dest mb)
  else (inl NotFound, mb).

(** Modelled from the spec: the mailbox network calls that Process
    makes for a message (sections 4.1 and 5). *)
Inductive Call :=
  | CallFetch (i : MsgId)
  | CallMove (i : MsgId).

(** Modelled from the spec: the network as one operation finds it
    (section 5), by the number of timeouts in a row that each call
    meets.  A call that times out has no effect on the mail store. *)
Definition Network : Type := Call -> nat.

(** Modelled from the spec: what the specification leaves open, taken as
    an interface: the shape of a transformer and of the weights, how a
    vector is scored, how features are read off a message, how a unit is
    fitted, the least number of samples, the FolderMap, and the "small
    fixed count" of retries of section 5. *)
Class Model := {
  Transformer : Type;
  Weights : Type;
  dimension : Transformer -> nat;
  infer : Weights -> FeatureVector -> Label;
  extract : Message -> FeatureVector;
  fit_transformer : list TrainingSample -> Transformer;
  fit_model : Transformer -> list TrainingSample -> Weights;
  min_samples : nat;
  folder_of : Label -> Folder;
  max_retries : nat
}.

Section WithModel.

Context {model : Model}.

(** Modelled from the spec: the ClassifierUnit of section 3. *)
Record ClassifierUnit := {
  feature_transformer : Transformer;
  model_weights : Weights;
  version : nat
}.

(** ** The Classifier Store (section 4.3): the active unit, if any *)

(** Modelled from the spec: [predict] of section 4.3, with the fallback
    MEDIUM before any training, and the [ClassifierMismatch] of section
    4.2 for a vector of the wrong size. *)
Definition predict (active : option ClassifierUnit) (fv : FeatureVector)
  : Result Label :=
  match active with
  | None => inr MEDIUM
  | Some u =>
      if bool_decide (length fv = dimension (feature_transformer u))
      then inr (infer (model_weights u) fv)
      else inl ClassifierMismatch
  end.

(** Modelled from the spec: the degenerate case of [retrain], in which
    every sample has the label of the first. *)
Definition all_same_label (samples : list TrainingSample) : bool :=
  match samples with
  | [] => true
  | s :: rest =>
      forallb (fun t => bool_decide (sample_label t = sample_label s)) rest
  end.

(** Modelled from the spec: [retrain] of section 4.3; it builds a unit
    from scratch and touches nothing. *)
Definition retrain (samples : list TrainingSample) (next_version : nat)
  : Result ClassifierUnit :=
  if bool_decide (length samples < min_samples) then inl InsufficientData
  else if all_same_label samples then inl InsufficientData
  else
    let t := fit_transformer samples in
    inr {| feature_transformer := t;
           model_weights := fit_model t samples;
           version := next_version |}.

(** Modelled from the spec: [activate] of section 4.3. *)
Definition activate (u : ClassifierUnit) (active : option ClassifierUnit)
  : option ClassifierUnit := Some u.

(** Modelled from the spec: the [version] of the unit that replaces
    the active one. *)
Definition next_version (active : option ClassifierUnit) : nat :=
  match active with
  | Some u => S (version u)
  | None => 1
  end.

(** Modelled from the spec: the [retrain] + [activate] that Label
    triggers (section 4.4); a failed retrain leaves the old unit. *)
Definition retrain_and_activate (active : option ClassifierUnit)
    (samples : list TrainingSample) : Result unit * option ClassifierUnit :=
  match retrain samples (next_version active) with
  | inl e => (inl e, active)
  | inr u => (inr tt, activate u active)
  end.

(** ** The Triage Engine (section 4.4) *)

(** Modelled from the spec: the engine's state, that is the mail store,
    the Outcome Ledger, the ids that took the side branch to PROMOTED,
    and the active classifier. *)
Record State := {
  mailbox : list Message;
  ledger : list OutcomeRecord;
  promoted : list MsgId;
  classifier : option ClassifierUnit
}.

(** Modelled from the spec: the engine at start-up, with an empty
    ledger. *)
Definition initial (mb : list Message) (c : option ClassifierUnit) : State :=
  {| mailbox := mb; ledger := []; promoted := []; classifier := c |}.

(** Modelled from the spec: the ledger read by its natural key, the
    live record of a message if it has one. *)
Definition ledger_find (i : MsgId) (l : list OutcomeRecord) : option OutcomeRecord :=
  find (fun r => bool_decide (message_id r = i)) l.

(** All records the ledger holds for a message id. *)
Definition records_of (i : MsgId) (l : list OutcomeRecord) : list OutcomeRecord :=
  filter (fun r => message_id r = i) l.

(** The folders in which the mail store holds a message id. *)
Definition folders_of (i : MsgId) (mb : list Message) : list Folder :=
  map current_folder (filter (fun m => id m = i) mb).

(** Modelled from the spec: one entry of the outcome list of Process
    (section 6), without the mail-client link. *)
Record ProcessItem := {
  item_id : MsgId;
  item_subject : string;
  item_summary : string;
  item_priority : Label
}.

(** Modelled from the spec: the answer of Process, namely the counts
    per label, the outcome list, and the messages skipped, each logged
    with the error that made the engine abandon it (sections 5 and 7). *)
Record ProcessResult := {
  moved_high : nat;
  moved_medium : nat;
  moved_low : nat;
  items : list ProcessItem;
  skipped : list (MsgId * Error)
}.

(** Modelled from the spec: the answer of Process before any message
    is handled. *)
Definition no_result : ProcessResult :=
  {| moved_high := 0; moved_medium := 0; moved_low := 0; items := [];
     skipped := [] |}.

(** Modelled from the spec: a moved message is counted under its
    label and listed. *)
Definition count_moved (l : Label) (it : ProcessItem) (r : ProcessResult)
  : ProcessResult :=
  {| moved_high := moved_high r + (if bool_decide (l = HIGH) then 1 else 0);
     moved_medium := moved_medium r + (if bool_decide (l = MEDIUM) then 1 else 0);
     moved_low := moved_low r + (if bool_decide (l = LOW) then 1 else 0);
     items := items r ++ [ it ];
     skipped := skipped r |}.

(** Modelled from the spec: an abandoned message is not counted as
    moved; it is logged among the skipped ones (sections 5 and 7). *)
Definition count_skipped (i : MsgId) (e : Error) (r : ProcessResult)
  : ProcessResult :=
  {| moved_high := moved_high r; moved_medium := moved_medium r;
     moved_low := moved_low r; items := items r;
     skipped := skipped r ++ [ (i, e) ] |}.

(** Modelled from the spec: "retried up to a small fixed count before
    being abandoned" (section 5): a call gets through when it meets no
    more timeouts in a row than there are retries. *)
Definition gets_through (net : Network) (c : Call) : bool :=
  Nat.leb (net c) max_retries.

(** Modelled from the spec: NEW -> CLASSIFIED -> MOVED for one id
    (section 4.4).  An id already in the ledger is passed over.  A
    message is abandoned with no record when a call for it times out
    beyond the retries ([TransientProtocolError], sections 5 and 7), when
    it has vanished ([NotFound]) or when it cannot be classified
    ([ClassifierMismatch]). *)
Definition process_one (now : Time) (net : Network)
    (acc : State * ProcessResult) (i : MsgId) : State * ProcessResult :=
  let '(st, res) := acc in
  match ledger_find i (ledger st) with
  | Some _ => (st, res)
  | None =>
      if negb (gets_through net (CallFetch i))
      then (st, count_skipped i TransientProtocolError res)
      else
        match fetch i (mailbox st) with
        | inl e => (st, count_skipped i e res)
        | inr m =>
            match predict (classifier st) (extract m) with
            | inl e => (st, count_skipped i e res)
            | inr l =>
                if negb (gets_through net (CallMove i))
                then (st, count_skipped i TransientProtocolError res)
                else
                  match move i (folder_of l) (mailbox st) with
                  | (inl e, _) => (st, count_skipped i e res)
                  | (inr _, mb) =>
                      ({| mailbox := mb;
                          ledger := ledger st ++
                            [ {| message_id := i; assigned_label := l;
                                 destination_folder := folder_of l;
                                 moved_at := now |} ];
                          promoted := promoted st;
                          classifier := classifier st |},
                       count_moved l
                         {| item_id := i; item_subject := subject m;
                            item_summary := body_summary m;
                            item_priority := l |} res)
                  end
            end
        end
  end.

(** Modelled from the spec: Process(start-date) of section 4.4, in the
    network [net]. *)
Definition process (date now : Time) (net : Network) (st : State)
  : State * ProcessResult :=
  fold_left (process_one now net) (search_since date (mailbox st)) (st, no_result).

(** Modelled from the spec: Recovery(start-date) of section 4.4. *)
Definition recovery (date : Time) (st : State) : list OutcomeRecord :=
  filter (fun r => assigned_label r = LOW /\ (date <= moved_at r)%N) (ledger st).

(** Modelled from the spec: "updated, not duplicated" (section 3),
    the record of the id is replaced where it stands. *)
Definition overwrite (i : MsgId) (new : OutcomeRecord) (l : list OutcomeRecord)
  : list OutcomeRecord :=
  map (fun r => if bool_decide (message_id r = i) then new else r) l.

(** Modelled from the spec: the move and the ledger write of a
    promotion, one logical step (section 3). *)
Definition promote_move (i : MsgId) (new : PromoteLabel) (now : Time) (st : State)
  : Result unit * State :=
  match move i (folder_of (label_of new)) (mailbox st) with
  | (inl e, _) => (inl e, st)
  | (inr _, mb) =>
      (inr tt,
       {| mailbox := mb;
          ledger := overwrite i
                      {| message_id := i; assigned_label := label_of new;
                         destination_folder := folder_of (label_of new);
                         moved_at := now |} (ledger st);
          promoted := if bool_decide (i ∈ promoted st) then promoted st
                      else i :: promoted st;
          classifier := classifier st |})
  end.

(** Modelled from the spec: Promote(message-id, new-label) of section
    4.4.  From MOVED(LOW) it moves the message and overwrites the record;
    on a message promoted before, the same label is a no-op success and
    another label moves and overwrites again; anything else is an
    [InvalidTransition]. *)
Definition promote (i : MsgId) (new : PromoteLabel) (now : Time) (st : State)
  : Result unit * State :=
  match ledger_find i (ledger st) with
  | None => (inl InvalidTransition, st)
  | Some r =>
      if bool_decide (i ∈ promoted st) then
        if bool_decide (assigned_label r = label_of new) then (inr tt, st)
        else promote_move i new now st
      else if bool_decide (assigned_label r = LOW) then promote_move i new now st
      else (inl InvalidTransition, st)
  end.

(** ** Sequences of operations *)

(** Modelled from the spec: a call of Process or of Promote. *)
Inductive Op :=
  | OpProcess (date now : Time) (net : Network)
  | OpPromote (i : MsgId) (new : PromoteLabel) (now : Time).

(** Modelled from the spec: one operation, giving the state after it
    and the ids that went through Process in it. *)
Definition step (st : State) (op : Op) : State * list MsgId :=
  match op with
  | OpProcess date now net =>
      let '(st', res) := process date now net st in
      (st', map item_id (items res))
  | OpPromote i new now => ((promote i new now st).2, [])
  end.

(** Modelled from the spec: a finite sequence of operations, run in
    order. *)
Fixpoint run (ops : list Op) (st : State) : State * list MsgId :=
  match ops with
  | [] => (st, [])
  | op :: rest =>
      let '(st1, moved1) := step st op in
      let '(st2, moved2) := run rest st1 in
      (st2, moved1 ++ moved2)
  end.

(** ** Predicates used in the statements about the engine *)

(** A record is as the mail store has the message: the folder is the
    one mapped to the label, the message exists, and it is there. *)
Definition record_consistent (mb : list Message) (r : OutcomeRecord) : Prop :=
  destination_folder r = folder_of (assigned_label r) /\
  (exists m, m ∈ mb /\ id m = message_id r) /\
  (forall m, m ∈ mb -> id m = message_id r ->
     current_folder m = destination_folder r).

Definition consistent (st : State) : Prop :=
  NoDup (map message_id (ledger st)) /\
  Forall (record_consistent (mailbox st)) (ledger st).

(** What [process_one] does to an id: nothing, or the move with its
    record. *)
Inductive outcome_of (now : Time) (st : State) (i : MsgId)
  : State -> option ProcessItem -> Prop :=
  | outcome_kept : outcome_of now st i st None
  | outcome_moved (m : Message) (l : Label) :
      ledger_find i (ledger st) = None ->
      fetch i (mailbox st) = inr m ->
      predict (classifier st) (extract m) = inr l ->
      (exists m0, m0 ∈ mailbox st /\ id m0 = i) ->
      outcome_of now st i
        {| mailbox := relocate i (folder_of l) (mailbox st);
           ledger := ledger st ++
             [ {| message_id := i; assigned_label := l;
                  destination_folder := folder_of l; moved_at := now |} ];
           promoted := promoted st;
           classifier := classifier st |}
        (Some {| item_id := i; item_subject := subject m;
                 item_summary := body_summary m; item_priority := l |}).

(** What Process never changes, and what it only adds to. *)
Definition extends (st st' : State) : Prop :=
  map id (mailbox st') = map id (mailbox st) /\
  arrivals (mailbox st') = arrivals (mailbox st) /\
  classifier st' = classifier st /\
  (forall j, j ∈ map message_id (ledger st) -> j ∈ map message_id (ledger st')).


(** Would Process move this id now?  It would when the message can be
    fetched, classified and moved. *)
Definition movable (st : State) (i : MsgId) : bool :=
  match fetch i (mailbox st) with
  | inl _ => false
  | inr m =>
      match predict (classifier st) (extract m) with
      | inl _ => false
      | inr _ => existsb (fun m0 => bool_decide (id m0 = i)) (mailbox st)
      end
  end.

(** Process has nothing left to do for this id: it has a record, or it
    cannot be moved. *)
Definition settled (st : State) (i : MsgId) : Prop :=
  i ∈ map message_id (ledger st) \/ movable st i = false.

(** The counts per label of a Process answer. *)
Definition moved_counts (r : ProcessResult) : nat * nat * nat :=
  (moved_high r, moved_medium r, moved_low r).

(** The first call left no message behind for the network's sake: its
    log of skipped messages holds no [TransientProtocolError]. *)
Definition none_timed_out (r : ProcessResult) : Prop :=
  Forall (fun e : MsgId * Error => e.2 <> TransientProtocolError) (skipped r).



End WithModel.

(** ** A small instance, for running the engine

    One feature, the code of the subject's first character, and a
    classifier that reads the label off it; the folder names are the
    ones the README sets. *)

Definition demo_infer (w : unit) (fv : FeatureVector) : Label :=
  match fv with
  | [ v ] => if (v <? 75)%Z then MEDIUM else if (v <? 80)%Z then LOW else HIGH
  | _ => MEDIUM
  end.

Definition demo_extract (m : Message) : FeatureVector :=
  match subject m with
  | String c _ => [ Z.of_nat (nat_of_ascii c) ]
  | EmptyString => [ 0%Z ]
  end.

(** FolderMap, with the folder names of the README. *)
Definition demo_folder_of (l : Label) : Folder :=
  match l with
  | HIGH => "AI_HIGH_PRIORITY"
  | MEDIUM => "AI_MEDIUM_PRIORITY"
  | LOW => "AI_LOW_PRIORITY_RECOVERY"
  end.

Definition demo_model : Model :=
  Build_Model nat unit (fun n => n) demo_infer demo_extract
    (fun _ => 1) (fun _ _ => tt) 5 demo_folder_of 3.

(** A network on which every call gets through at once, and one on
    which the fetch of message 2 times out nine times in a row. *)
Definition calm : Network := fun _ => 0.

Definition stormy : Network :=
  fun c => match c with CallFetch 2 => 9 | _ => 0 end.

Definition demo_unit : @ClassifierUnit demo_model :=
  @Build_ClassifierUnit demo_model 1 tt 1.

Definition demo_message (i : MsgId) (subj : string) (t : Time) : Message :=
  {| id := i; subject := subj; body_summary := subj; received_at := t;
     current_folder := "INBOX" |}.

(** The mailbox of the end-to-end scenario of section 8. *)
Definition demo_mailbox : list Message :=
  [ demo_message 1 "Invoice due" 20240102%N;
    demo_message 2 "Newsletter" 20240103%N;
    demo_message 3 "Server down" 20240104%N ].

Definition demo_start : @State demo_model :=
  initial demo_mailbox (Some demo_unit).

(** After Process("2024-01-01"). *)
Definition demo_processed : @State demo_model :=
  (process 20240101%N 20240105%N calm demo_start).1.

(** After Process and then Promote(newsletter, MEDIUM). *)
Definition demo_promoted : @State demo_model :=
  (promote 2 ToMEDIUM 20240106%N demo_processed).2.

Definition demo_ops : list Op :=
  [ OpProcess 20240101%N 20240105%N calm; OpPromote 2 ToMEDIUM 20240106%N ].

(** A first Process in the storm, and a second one in the calm after
    it. *)
Definition demo_interrupted : @State demo_model * ProcessResult :=
  process 20240101%N 20240105%N stormy demo_start.

Definition demo_resumed : @State demo_model * ProcessResult :=
  process 20240101%N 20240109%N calm demo_interrupted.1.

Definition demo_sample (i : MsgId) (l : Label) : TrainingSample :=
  {| sample_id := i; sample_subject := "subject"; sample_summary := "summary";
     sample_label := l |}.

End Engine.

(** * Part III: facts about the dashboard *)

Module DashboardFacts.

Import Dashboard.

(** ** Facts about the Train handler *)

Lemma str_truthy_spec (s : string) : str_truthy s = true <-> s <> EmptyString.
Proof. destruct s; simpl; split; intros; congruence. Qed.

Lemma missing_limit_is_zero : parseInt10 (str_or EmptyString "0") = Num 0.
Proof. reflexivity. Qed.

Lemma train_reset_no_post (e : Effect) (url : string) (p : Payload) :
  e ∈ train_reset ++ [ SetText "train-results" validation_message ] ->
  e <> PostJSON url p.
Proof.
  intros Hin ->.
  repeat (apply elem_of_cons in Hin as [Hin|Hin]; [discriminate|]).
  by apply elem_of_nil in Hin.
Qed.

(** What [parseInt] returns is [NaN], an infinity or an integer. *)
Lemma double_of_int_cases (z : Z) :
  (exists b : bool, double_of_int z = Infinity b) \/
  (exists z' : Z, double_of_int z = Num (inject_Z z')).
Proof.
  unfold double_of_int.
  destruct (Z.log2 (Z.abs z) <=? 52)%Z; [right; by eexists|].
  match goal with
  | |- context [if (2 ^ 1024 <=? ?v)%Z then _ else _] =>
      destruct (2 ^ 1024 <=? v)%Z
  end; [left | right]; by eexists.
Qed.

Lemma parseInt10_cases (s : string) :
  parseInt10 s = NaN \/
  (exists b : bool, parseInt10 s = Infinity b) \/
  (exists z : Z, parseInt10 s = Num (inject_Z z)).
Proof.
  unfold parseInt10.
  destruct (match skip_space s with
            | String "-"%char r => (true, r)
            | String "+"%char r => (false, r)
            | _ => (false, skip_space s)
            end) as [neg s2].
  destruct (read_digits None s2) as [m|]; [right | by left].
  apply double_of_int_cases.
Qed.

(** The guard of line 85 on the parsed limit. *)
Lemma limit_guard (limit : JsNum) :
  (negb (num_truthy limit) || num_lt1 limit)%bool = false <-> at_least 1 limit.
Proof.
  destruct limit as [|[]|q]; simpl; try (split; [discriminate | tauto]);
    try (split; [reflexivity | discriminate]); [by split|].
  unfold num_lt1; simpl.
  destruct (Qle_bool 1 q) eqn:Hle; simpl.
  - apply Qle_bool_iff in Hle.
    destruct (Qeq_bool q 0) eqn:Heq; simpl.
    + apply Qeq_bool_iff in Heq. lra.
    + by split.
  - rewrite orb_true_r. split; [discriminate|].
    intros Hq%Qle_bool_iff. congruence.
Qed.

(** C8, as the code has it: the Train handler posts to /api/train
    exactly when a date is given and the parsed limit is a number of at
    least 1; on every other input (no date, a missing or zero limit,
    [NaN], a limit below 1) it posts nothing, whatever the server would
    answer, and shows the validation message.  The limit it posts is an
    integer of at least 1, or the infinity that [parseInt] makes of a
    numeral beyond the range of a double, which the guard of line 85
    does not reject. *)
Theorem train_click_guard (train_date train_limit : string)
    (reply : Reply TrainData) :
  (valid_train_input train_date train_limit /\
   (parseInt10 (str_or train_limit "0") = Infinity false \/
    exists z : Z,
      (1 <= z)%Z /\ parseInt10 (str_or train_limit "0") = Num (inject_Z z)) /\
   btn_train_click train_date train_limit reply =
     train_reset ++
     PostJSON "/api/train"
       (TrainPayload train_date (parseInt10 (str_or train_limit "0")))
     :: train_on_reply reply)
  \/
  (~ valid_train_input train_date train_limit /\
   (train_date = EmptyString \/
    parseInt10 (str_or train_limit "0") = NaN \/
    parseInt10 (str_or train_limit "0") = Infinity true \/
    exists z : Z,
      (z < 1)%Z /\ parseInt10 (str_or train_limit "0") = Num (inject_Z z)) /\
   btn_train_click train_date train_limit reply =
     train_reset ++ [ SetText "train-results" validation_message ] /\
   forall url p, PostJSON url p ∉ btn_train_click train_date train_limit reply).
Proof.
  assert (Hquiet : forall l : list Effect,
            l = train_reset ++ [ SetText "train-results" validation_message ] ->
            forall url p, PostJSON url p ∉ l).
  { intros l -> url p Hin. by eapply train_reset_no_post. }
  unfold btn_train_click, valid_train_input.
  pose proof (limit_guard (parseInt10 (str_or train_limit "0"))) as Hguard.
  pose proof (parseInt10_cases (str_or train_limit "0")) as Hcases.
  destruct (str_truthy train_date) eqn:Hd; simpl.
  - destruct (negb (num_truthy (parseInt10 (str_or train_limit "0")))
              || num_lt1 (parseInt10 (str_or train_limit "0")))%bool eqn:Hg.
    + right.
      assert (Hno : ~ at_least 1 (parseInt10 (str_or train_limit "0"))).
      { intros Hv%Hguard. discriminate. }
      split; [tauto|]. split; [|split; [reflexivity | by apply Hquiet]].
      right. destruct Hcases as [Hc|[[[] Hc]|[z Hc]]]; rewrite Hc in Hno |- *.
      * by left.
      * right; by left.
      * exfalso. by apply Hno.
      * right; right. exists z. split; [|reflexivity].
        destruct (Z.lt_ge_cases z 1) as [Hlt|Hge]; [exact Hlt|].
        exfalso. apply Hno. simpl. rewrite Zle_Qle in Hge. exact Hge.
    + left. assert (Hv := proj1 Hguard eq_refl).
      split; [split; [by apply str_truthy_spec | exact Hv]|].
      split; [|reflexivity].
      destruct Hcases as [Hc|[[[] Hc]|[z Hc]]]; rewrite Hc in Hv |- *;
        simpl in Hv; try done.
      * by left.
      * right. exists z. split; [|reflexivity]. by rewrite Zle_Qle.
  - right. split.
    + intros (Hne & _). apply str_truthy_spec in Hne. congruence.
    + split; [|split; [reflexivity | by apply Hquiet]].
      left. destruct train_date; [reflexivity | discriminate].
Qed.

(** C8, as stated, fails: a limit of 400 digits is no positive integer
    once parsed (it is [Infinity], which JSON writes as [null]); it is
    truthy and not below 1, and with a date the handler posts it. *)
Lemma long_limit_posts_infinity :
  parseInt10 (str_or long_limit "0") = Infinity false /\
  btn_train_click "2024-01-01" long_limit (Failed "offline") =
    train_reset ++
    [ PostJSON "/api/train" (TrainPayload "2024-01-01" (Infinity false));
      SetText "train-results" "Error: offline" ].
Proof. split; vm_compute; reflexivity. Qed.

(** The answer of the server makes the handler post nothing further. *)
Lemma train_on_reply_no_post (reply : Reply TrainData) (url : string) (p : Payload) :
  PostJSON url p ∉ train_on_reply reply.
Proof.
  destruct reply as [message|[message samples]]; simpl.
  - by intros [?|[]%elem_of_nil]%elem_of_cons.
  - intros [?|Hin]%elem_of_cons; [discriminate|].
    destruct samples as [|s samples]; [by apply elem_of_nil in Hin|].
    apply elem_of_app in Hin as [Hin|Hin].
    + apply elem_of_lookup_imap in Hin as (i & x & Heq & _). discriminate.
    + repeat (apply elem_of_cons in Hin as [Hin|Hin]; [discriminate|]).
      by apply elem_of_nil in Hin.
Qed.

(** ** Facts about the chart *)

Lemma num_le_not_nan (a b : JsNum) : num_le a b = true -> a <> NaN /\ b <> NaN.
Proof. destruct a as [|[]|x], b as [|[]|y]; simpl; intros; split; congruence. Qed.

Lemma num_le_refl (a : JsNum) : a <> NaN -> num_le a a = true.
Proof.
  destruct a as [|[]|x]; simpl; try done. intros _. apply Qle_bool_iff, Qle_refl.
Qed.

Lemma num_le_trans (a b c : JsNum) :
  num_le a b = true -> num_le b c = true -> num_le a c = true.
Proof.
  destruct a as [|[]|x], b as [|[]|y], c as [|[]|z]; simpl; try done.
  rewrite !Qle_bool_iff. apply Qle_trans.
Qed.

Lemma num_le_total (a b : JsNum) :
  a <> NaN -> b <> NaN -> num_le a b = false -> num_le b a = true.
Proof.
  destruct a as [|[]|x], b as [|[]|y]; simpl; try done.
  intros _ _ Hle. apply Qle_bool_iff.
  destruct (Qlt_le_dec y x) as [Hlt|Hge]; [by apply Qlt_le_weak|].
  apply Qle_bool_iff in Hge. congruence.
Qed.

Lemma num_le_at_least (q : Q) (n : JsNum) :
  num_le (Num q) n = true <-> at_least q n.
Proof.
  destruct n as [|[]|x]; simpl.
  - split; [discriminate | tauto].
  - split; discriminate.
  - by split.
  - apply Qle_bool_iff.
Qed.

Lemma num_lt_negb (x y : JsNum) :
  x <> NaN -> y <> NaN -> num_lt y x = negb (num_le x y).
Proof. destruct x, y; done. Qed.

Lemma never_above_iff (x y : JsNum) :
  never_above x y <-> x = NaN \/ y = NaN \/ num_le x y = true.
Proof.
  unfold never_above. split.
  - intros Hlt.
    destruct x as [|s|x]; [by left | |];
      (destruct y as [|t|y]; [right; by left | |]);
      right; right; rewrite num_lt_negb in Hlt by done;
      by apply negb_false_iff.
  - intros [->|[->|Hle]]; [by destruct y | done |].
    destruct (num_le_not_nan _ _ Hle).
    rewrite num_lt_negb by done. by rewrite Hle.
Qed.

Lemma num_max_cases (a b : JsNum) :
  num_max a b = NaN \/
  ((num_max a b = a \/ num_max a b = b) /\
   num_le a (num_max a b) = true /\ num_le b (num_max a b) = true).
Proof.
  destruct a as [|s|x]; [by left| |];
    (destruct b as [|t|y]; [by left| |]); right;
    match goal with
    | |- context [num_max ?a ?b] =>
        change (num_max a b) with (if num_le a b then b else a);
        destruct (num_le a b) eqn:Hle;
        [ split; [by right|]; split; [exact Hle | by apply num_le_refl]
        | split; [by left|]; split; [by apply num_le_refl | by apply num_le_total] ]
    end.
Qed.

Lemma fold_num_max_nan (xs : list JsNum) : fold_left num_max xs NaN = NaN.
Proof. induction xs as [|x xs IH]; [reflexivity | exact IH]. Qed.

(** [Math.max] is [NaN], or it is one of its arguments and none of them
    is above it. *)
Lemma fold_num_max (xs : list JsNum) (a : JsNum) :
  fold_left num_max xs a = NaN \/
  (In (fold_left num_max xs a) (a :: xs) /\
   num_le a (fold_left num_max xs a) = true /\
   forall x, In x xs -> num_le x (fold_left num_max xs a) = true).
Proof.
  revert a. induction xs as [|x xs IH]; intros a.
  - destruct a as [|s|q]; [by left| |]; right; cbn [fold_left];
      (split; [by left|]); (split; [by apply num_le_refl | intros x []]).
  - cbn [fold_left].
    destruct (IH (num_max a x)) as [Hnan|(Hin & Hge & Hall)]; [by left|].
    destruct (num_max_cases a x) as [Hm|(Hm & Hma & Hmx)].
    { left. rewrite Hm. apply fold_num_max_nan. }
    right. split; [|split].
    + destruct Hin as [Hin|Hin]; [|right; by right].
      rewrite <- Hin. destruct Hm as [->| ->]; [by left | right; by left].
    + by eapply num_le_trans.
    + intros y [<-|Hy]; [by eapply num_le_trans | by apply Hall].
Qed.

Lemma fold_num_max_not_nan (xs : list JsNum) (a : JsNum) :
  a <> NaN -> (forall x, In x xs -> x <> NaN) -> fold_left num_max xs a <> NaN.
Proof.
  revert a. induction xs as [|x xs IH]; intros a Ha Hxs; [exact Ha|].
  cbn [fold_left]. apply IH.
  - assert (Hx : x <> NaN) by (apply Hxs; by left).
    destruct a as [|[]|p], x as [|[]|q]; simpl; try done;
      by destruct (Qle_bool p q).
  - intros y Hy. apply Hxs. by right.
Qed.

Lemma maxVal_cases (counts : gmap string JsValue) :
  maxVal counts = NaN \/
  (at_least 1 (maxVal counts) /\
   In (maxVal counts)
      (Num 1 :: map (fun k => to_number (count_or0 counts k)) keys) /\
   forall k, In k keys ->
     num_le (to_number (count_or0 counts k)) (maxVal counts) = true).
Proof.
  unfold maxVal, Math_max1.
  destruct (fold_num_max (map (fun k => to_number (count_or0 counts k)) keys)
              (Num 1)) as [Hnan|(Hin & Hge & Hall)]; [by left|].
  right. split; [by apply num_le_at_least|]. split; [exact Hin|].
  intros k Hk. apply Hall.
  by apply (in_map (fun k => to_number (count_or0 counts k))).
Qed.

Lemma count_or0_numeric (counts : gmap string JsValue) (k : string) :
  numeric_counts counts -> In k keys ->
  exists n : JsNum, count_or0 counts k = Number n /\ n <> NaN.
Proof.
  intros Hnum Hk. unfold count_or0.
  destruct (counts !! k) as [v|] eqn:Hv; [|by exists (Num 0)].
  destruct (Hnum k v Hk Hv) as [n ->]. simpl.
  destruct (num_truthy n) eqn:Ht; [|by exists (Num 0)].
  exists n. split; [reflexivity|]. by intros ->.
Qed.

Lemma maxVal_numeric (counts : gmap string JsValue) :
  numeric_counts counts -> at_least 1 (maxVal counts).
Proof.
  intros Hnum. destruct (maxVal_cases counts) as [Hnan|[Hge _]]; [|exact Hge].
  exfalso. revert Hnan. apply fold_num_max_not_nan; [done|].
  intros x (k & <- & Hk)%in_map_iff.
  destruct (count_or0_numeric counts k Hnum Hk) as (n & -> & Hn). exact Hn.
Qed.

Lemma count_or0_nonneg (counts : gmap string JsValue) (k : string) :
  nonneg_counts counts -> In k keys ->
  exists q : Q, count_or0 counts k = Number (Num q) /\ (0 <= q)%Q.
Proof.
  intros Hall Hk. unfold count_or0.
  destruct (counts !! k) as [v|] eqn:Hv; [|exists 0%Q; split; [done|apply Qle_refl]].
  destruct (Hall k v Hk Hv) as (q & -> & Hq). simpl.
  destruct (Qeq_bool q 0); simpl; [exists 0%Q; split; [done|apply Qle_refl]|].
  by exists q.
Qed.

Lemma nonneg_numeric (counts : gmap string JsValue) :
  nonneg_counts counts -> numeric_counts counts.
Proof. intros Hall k v Hk Hv. destruct (Hall k v Hk Hv) as (q & -> & _). by eexists. Qed.

(** With finite counts the divisor is finite, at least 1 and at least
    every count. *)
Lemma maxVal_finite (counts : gmap string JsValue) :
  nonneg_counts counts ->
  exists m : Q,
    maxVal counts = Num m /\ (1 <= m)%Q /\
    forall k, In k keys ->
      exists q : Q, count_or0 counts k = Number (Num q) /\ (0 <= q)%Q /\ (q <= m)%Q.
Proof.
  intros Hall.
  pose proof (maxVal_numeric counts (nonneg_numeric counts Hall)) as H1.
  destruct (maxVal_cases counts) as [Hnan|(_ & Hin & Hle)].
  { rewrite Hnan in H1. destruct H1. }
  assert (Hfin : exists m, maxVal counts = Num m).
  { destruct Hin as [<-|(k & <- & Hk)%in_map_iff]; [by eexists|].
    destruct (count_or0_nonneg counts k Hall Hk) as (q & -> & _). by eexists. }
  destruct Hfin as [m Hm]. exists m. rewrite Hm in *.
  split; [reflexivity|]. split; [exact H1|].
  intros k Hk. destruct (count_or0_nonneg counts k Hall Hk) as (q & Hq & Hq0).
  exists q. split; [exact Hq|]. split; [exact Hq0|].
  specialize (Hle k Hk). rewrite Hq in Hle. simpl in Hle. by apply Qle_bool_iff.
Qed.

Lemma round_lower (x : Q) (n : Z) :
  (inject_Z n <= x)%Q -> (n <= Qfloor (x + (1 # 2)))%Z.
Proof.
  intros Hx.
  rewrite <- (Qfloor_Z n). apply Qfloor_resp_le.
  eapply Qle_trans; [exact Hx|].
  rewrite <- (Qplus_0_r x) at 1. apply Qplus_le_r. discriminate.
Qed.

Lemma round_upper (x : Q) (n : Z) :
  (x <= inject_Z n)%Q -> (Qfloor (x + (1 # 2)) <= n)%Z.
Proof.
  intros Hx.
  assert (Hlt : (inject_Z (Qfloor (x + (1 # 2))) < inject_Z (n + 1))%Q).
  { eapply Qle_lt_trans; [apply Qfloor_le|].
    rewrite inject_Z_plus, (Qplus_comm x), (Qplus_comm (inject_Z n)).
    apply Qplus_lt_le_compat; [reflexivity | exact Hx]. }
  rewrite <- Zlt_Qlt in Hlt. lia.
Qed.

Lemma overflow_large : (inject_Z (2 ^ 53) < overflow)%Q.
Proof. unfold overflow. rewrite <- Zlt_Qlt. vm_compute. reflexivity. Qed.

Lemma chart_bars (rnd : Q -> Q) (W H : Z) (counts : gmap string JsValue) (b : Bar) :
  In b (renderCountsChart rnd W H counts) ->
  exists (i : nat) (k : string), In k keys /\ b = bar rnd W H counts i k.
Proof.
  intros [<-|[<-|[<-|[]]]]; eexists _, _; (split; [|reflexivity]); simpl; tauto.
Qed.

Section ChartBounds.

Variable rnd : Q -> Q.
Hypothesis rnd_mono : forall x y : Q, (x <= y)%Q -> (rnd x <= rnd y)%Q.
Hypothesis rnd_int :
  forall z : Z, (Z.abs z <= 2 ^ 53)%Z -> (rnd (inject_Z z) == inject_Z z)%Q.

(** A real between two small integers rounds to a double between them. *)
Lemma nearest_between (x : Q) (lo hi : Z) :
  (Z.abs lo <= 2 ^ 53)%Z -> (Z.abs hi <= 2 ^ 53)%Z ->
  (inject_Z lo <= x)%Q -> (x <= inject_Z hi)%Q ->
  exists y : Q, nearest rnd x = Num y /\ (inject_Z lo <= y)%Q /\ (y <= inject_Z hi)%Q.
Proof.
  intros Hlo Hhi Hx1 Hx2. unfold nearest.
  pose proof overflow_large as Hov.
  assert (Hhi' : (inject_Z hi <= inject_Z (2 ^ 53))%Q) by (rewrite <- Zle_Qle; lia).
  assert (Hlo' : (- inject_Z (2 ^ 53) <= inject_Z lo)%Q).
  { rewrite <- inject_Z_opp, <- Zle_Qle. lia. }
  destruct (Qle_bool overflow x) eqn:H1; [apply Qle_bool_iff in H1; lra|].
  destruct (Qle_bool x (- overflow)) eqn:H2; [apply Qle_bool_iff in H2; lra|].
  exists (rnd x). split; [reflexivity|]. split.
  - rewrite <- (rnd_int lo) by exact Hlo. by apply rnd_mono.
  - rewrite <- (rnd_int hi) by exact Hhi. by apply rnd_mono.
Qed.

Lemma fdiv_unit (a b : Q) :
  (0 <= a)%Q -> (a <= b)%Q -> (1 <= b)%Q ->
  exists y : Q, fdiv rnd (Num a) (Num b) = Num y /\ (0 <= y)%Q /\ (y <= 1)%Q.
Proof.
  intros Ha Hab Hb. unfold fdiv.
  assert (Hb0 : (0 < b)%Q) by (eapply Qlt_le_trans; [|exact Hb]; reflexivity).
  destruct (Qeq_bool b 0) eqn:Hz; [apply Qeq_bool_iff in Hz; lra|].
  apply (nearest_between (a / b) 0 1); [simpl; lia | simpl; lia | |].
  - apply Qle_shift_div_l; [exact Hb0|]. by rewrite Qmult_0_l.
  - apply Qle_shift_div_r; [exact Hb0|]. by rewrite Qmult_1_l.
Qed.

Lemma fmul_scale (q : Q) (n : Z) :
  (0 <= q)%Q -> (q <= 1)%Q -> (Z.abs n <= 2 ^ 53)%Z ->
  exists p : Q,
    fmul rnd (Num q) (Num (inject_Z n)) = Num p /\
    (inject_Z (Z.min 0 n) <= p)%Q /\ (p <= inject_Z (Z.max 0 n))%Q.
Proof.
  intros Hq0 Hq1 Hn. unfold fmul.
  apply nearest_between; [lia | lia | |].
  - destruct (Z.le_ge_cases 0 n) as [Hpos|Hneg].
    + rewrite Z.min_l by lia. rewrite Zle_Qle in Hpos.
      change (inject_Z 0) with 0%Q in *; nra.
    + rewrite Z.min_r by lia. rewrite Zle_Qle in Hneg.
      change (inject_Z 0) with 0%Q in *; nra.
  - destruct (Z.le_ge_cases 0 n) as [Hpos|Hneg].
    + rewrite Z.max_r by lia. rewrite Zle_Qle in Hpos.
      change (inject_Z 0) with 0%Q in *; nra.
    + rewrite Z.max_l by lia. rewrite Zle_Qle in Hneg.
      change (inject_Z 0) with 0%Q in *; nra.
Qed.

Lemma bar_bh_between (W H : Z) (counts : gmap string JsValue) (i : nat) (k : string) :
  (0 <= H < 2 ^ 32)%Z ->
  nonneg_counts counts ->
  In k keys ->
  exists n : Z,
    bar_bh (bar rnd W H counts i k) = Num (inject_Z n) /\
    (Z.min 0 (H - 120) <= n <= Z.max 0 (H - 120))%Z.
Proof.
  intros HH Hall Hk. unfold bar; cbn [bar_bh].
  destruct (maxVal_finite counts Hall) as (m & Hmax & Hm & Hcounts).
  destruct (Hcounts k Hk) as (q & Hq & Hq0 & Hqm).
  rewrite Hmax, Hq. cbn [to_number].
  destruct (fdiv_unit q m Hq0 Hqm Hm) as (y & Hy & Hy0 & Hy1). rewrite Hy.
  destruct (fmul_scale y (H - 120) Hy0 Hy1) as (p & Hp & Hlo & Hhi).
  { assert (2 ^ 32 < 2 ^ 53)%Z by reflexivity. lia. }
  rewrite Hp. cbn [Math_round]. eexists. split; [reflexivity|].
  split; [by apply round_lower | by apply round_upper].
Qed.

End ChartBounds.


Lemma sample_counts_nonneg : nonneg_counts sample_counts.
Proof.
  intros k v Hk Hv. unfold sample_counts in Hv.
  destruct Hk as [<-|[<-|[<-|[]]]]; vm_compute in Hv; try discriminate;
    injection Hv as <-; eexists; (split; [reflexivity | discriminate]).
Qed.



(** ** Facts about the Recovery view *)

Lemma tok_run_app (decode : string -> string) (t : Tok) (s1 s2 : string) :
  tok_run decode t (s1 +:+ s2) = tok_run decode (tok_run decode t s1) s2.
Proof.
  revert t. induction s1 as [|c s1 IH]; intros t; [reflexivity | apply IH].
Qed.

(** Text without [<] leaves the data state as it is. *)
Lemma tok_run_text (decode : string -> string) (t : Tok) (s : string) :
  mode t = Data -> char_free "<" s = true -> tok_run decode t s = t.
Proof.
  intros Hm. induction s as [|c s IH]; simpl; [reflexivity|].
  intros [Hc Hs]%andb_true_iff. unfold tok_step. rewrite Hm.
  destruct (Ascii.eqb c "<"); [discriminate|]. by apply IH.
Qed.

Lemma append_snoc (v : string) (c : ascii) (s : string) :
  snoc v c +:+ s = v +:+ String c s.
Proof.
  unfold snoc. induction v as [|d v IH]; [reflexivity|].
  change (String d ((v +:+ String c EmptyString) +:+ s)
          = String d (v +:+ String c s)).
  by rewrite IH.
Qed.

Lemma append_empty_r (v : string) : v +:+ EmptyString = v.
Proof.
  induction v as [|d v IH]; [reflexivity|].
  change (String d (v +:+ EmptyString) = String d v). by rewrite IH.
Qed.

(** Inside a double-quoted attribute value, text without a double quote
    is appended to the value and nothing else happens. *)
Lemma tok_run_dq_value (decode : string -> string) (e : bool) (tn : string)
    (ats : list (string * string)) (n v s : string) (em : list Element) :
  char_free "034" s = true ->
  tok_run decode
    {| mode := AttrValueDQ; is_end := e; tname := tn; tattrs := ats;
       cur := Some (n, v); emitted := em |} s
  = {| mode := AttrValueDQ; is_end := e; tname := tn; tattrs := ats;
       cur := Some (n, v +:+ s); emitted := em |}.
Proof.
  revert v. induction s as [|c s IH]; intros v; simpl.
  - intros _. by rewrite append_empty_r.
  - intros [Hc Hs]%andb_true_iff. unfold tok_step; simpl.
    destruct (Ascii.eqb c "034"); [discriminate|].
    unfold value_snoc; simpl. rewrite IH by exact Hs. by rewrite append_snoc.
Qed.

Lemma digits_lt_free (u : Decimal.uint) :
  char_free "<" (NilEmpty.string_of_uint u) = true.
Proof. induction u; simpl; auto. Qed.

Lemma show_nat_lt_free (n : nat) : char_free "<" (show_nat n) = true.
Proof.
  unfold show_nat, NilZero.string_of_uint.
  destruct (Nat.to_uint n); try reflexivity; apply digits_lt_free.
Qed.

(** A value without [&], carriage return and NUL is read as it is. *)
Lemma normalize_value_plain (s : string) :
  char_free "013" s = true -> char_free "000" s = true -> normalize_value s = s.
Proof.
  induction s as [|c s IH]; [reflexivity|]. cbn [char_free normalize_value].
  intros [Hc Hs]%andb_true_iff [Hc' Hs']%andb_true_iff.
  apply negb_true_iff in Hc, Hc'. rewrite Hc, Hc'. by rewrite IH.
Qed.

Lemma read_value_verbatim (decode : string -> string) (s : string) :
  verbatim s -> read_value decode s = s.
Proof.
  intros (Hamp & Hcr & Hnul). unfold read_value.
  rewrite normalize_value_plain by assumption. by rewrite Hamp.
Qed.

(** Run the tokenizer over the next piece of the template: a spliced
    field by the two lemmas above, a literal piece by evaluation. *)
Ltac tok_eval :=
  match goal with
  | |- context [tok_run ?d (Build_Tok ?m ?e ?n ?a ?c ?em) ?s] =>
      first
        [ rewrite (tok_run_text d (Build_Tok m e n a c em) s)
            by first [reflexivity | assumption | apply show_nat_lt_free]
        | match c with
          | Some (?k, ?v) =>
              rewrite (tok_run_dq_value d e n a k v s em)
                by first [assumption | reflexivity]
          end
        | let v := eval vm_compute in (tok_run d (Build_Tok m e n a c em) s) in
          replace (tok_run d (Build_Tok m e n a c em) s) with v
            by (vm_compute; reflexivity) ]
  end.

Lemma parse_template (decode : string -> string) (i : nat) (item : RecoveryItem) :
  plain_item item ->
  parse_fragment decode (item_html i item) = template_elements decode item.
Proof.
  destruct item as [id subj summ link].
  intros (Hsubj & Hsumm & Hlink & Hid); simpl in *.
  unfold parse_fragment, item_html, attr, tok_init.
  repeat rewrite tok_run_app.
  repeat tok_eval.
  reflexivity.
Qed.

Lemma promote_buttons_of_template (decode : string -> string) (item : RecoveryItem) :
  filter (fun el => has_class "promote" el = true)
         (item_div :: template_elements decode item)
  = [ promote_button decode item "HIGH"; promote_button decode item "MEDIUM" ].
Proof. destruct item. vm_compute. reflexivity. Qed.

Lemma promote_buttons_plain (decode : string -> string)
    (items : list RecoveryItem) (h : nat -> nat) :
  Forall plain_item items ->
  filter (fun el => has_class "promote" el = true)
    (mjoin (imap (fun i item =>
                    item_div :: parse_fragment decode (item_html (h i) item)) items))
  = flat_map (fun item =>
                [ promote_button decode item "HIGH";
                  promote_button decode item "MEDIUM" ])
             items.
Proof.
  intros Hall. revert h. induction Hall as [|item items Hitem _ IH]; intros h.
  - reflexivity.
  - rewrite imap_cons.
    match goal with
    | |- context [mjoin (?x :: ?l)] =>
        change (mjoin (x :: l)) with (x ++ mjoin l)
    end.
    rewrite filter_app, parse_template by exact Hitem.
    rewrite promote_buttons_of_template.
    etrans; [apply f_equal, (IH (h ∘ S)) | reflexivity].
Qed.

Lemma recovery_view_items (decode : string -> string) (items : list RecoveryItem) :
  recovery_view decode items =
  mjoin (imap (fun i item => item_div :: parse_fragment decode (item_html i item))
              items).
Proof.
  unfold recovery_view, recovery_on_reply.
  destruct items as [|item items]; [reflexivity|].
  f_equal. generalize (item :: items). clear. intros l.
  change (fun i item => item_div :: parse_fragment decode (item_html i item))
    with (fun i item =>
            elements_of decode
              (AppendItem "recovery-results" (item_html (id i) item))).
  change (fun i item => AppendItem "recovery-results" (item_html i item))
    with (fun i item => AppendItem "recovery-results" (item_html (id i) item)).
  generalize (@id nat). induction l as [|x l IH]; intros h; [reflexivity|].
  rewrite !imap_cons. simpl. f_equal. apply (IH (h ∘ S)).
Qed.

Lemma promote_requests_of_plain (decode : string -> string)
    (items : list RecoveryItem) :
  Forall plain_item items ->
  promote_requests decode items =
    flat_map (fun item =>
      [ PostJSON "/api/promote"
          (PromotePayload (Some (read_value decode (email_id item))) (Some "HIGH"));
        PostJSON "/api/promote"
          (PromotePayload (Some (read_value decode (email_id item)))
             (Some "MEDIUM")) ])
      items.
Proof.
  intros Hall.
  unfold promote_requests, promote_buttons. rewrite recovery_view_items.
  rewrite (promote_buttons_plain decode items (fun i => i) Hall).
  clear Hall. induction items as [|item items IH]; [reflexivity|].
  simpl. f_equal. f_equal. exact IH.
Qed.

(** C9, as the code has it: when no item of the response carries a [<]
    in its subject or summary or a double quote in its link or id, the
    promote requests that the view can issue are, item by item, one with
    new_priority HIGH and one with MEDIUM, both for the id as the
    browser reads it from [data-id]; none has another priority.  The id
    read is the item's own when that holds no [&], carriage return or
    NUL. *)
Theorem promote_requests_plain (decode : string -> string)
    (items : list RecoveryItem) :
  Forall plain_item items ->
  promote_requests decode items =
    flat_map (fun item =>
      [ PostJSON "/api/promote"
          (PromotePayload (Some (read_value decode (email_id item))) (Some "HIGH"));
        PostJSON "/api/promote"
          (PromotePayload (Some (read_value decode (email_id item)))
             (Some "MEDIUM")) ])
      items /\
  (forall item : RecoveryItem,
     verbatim (email_id item) -> read_value decode (email_id item) = email_id item) /\
  forall r : Effect, In r (promote_requests decode items) ->
    exists id to : string,
      r = PostJSON "/api/promote" (PromotePayload (Some id) (Some to)) /\
      (to = "HIGH" \/ to = "MEDIUM").
Proof.
  intros Hall.
  pose proof (promote_requests_of_plain decode items Hall) as Heq.
  split; [exact Heq|]. split.
  - intros item. apply read_value_verbatim.
  - intros r Hr. rewrite Heq in Hr. apply in_flat_map in Hr as (item & _ & Hin).
    destruct Hin as [<-|[<-|[]]]; eexists _, _; split; eauto.
Qed.

Lemma promote_requests_plain_witness :
  promote_requests (fun s => s) [ sample_item ] =
    [ PostJSON "/api/promote" (PromotePayload (Some "42") (Some "HIGH"));
      PostJSON "/api/promote" (PromotePayload (Some "42") (Some "MEDIUM")) ].
Proof.
  apply (promote_requests_plain (fun s => s) [ sample_item ]).
  constructor; [|constructor].
  repeat split; reflexivity.
Defined.

(** C9, as stated, fails: a subject line that carries a button of class
    [promote] with [data-to="LOW"] is rendered as a promote control, and
    its click posts new_priority LOW; so does a summary, and so does a
    link or an id that closes its attribute with a double quote.  (None
    of the four holds an [&], so the decoding is not asked.) *)
Lemma crafted_subject_promotes_low :
  promote_requests (fun s => s) [ crafted_item ] =
    [ PostJSON "/api/promote" (PromotePayload (Some "17") (Some "LOW"));
      PostJSON "/api/promote" (PromotePayload (Some "17") (Some "HIGH"));
      PostJSON "/api/promote" (PromotePayload (Some "17") (Some "MEDIUM")) ] /\
  promote_requests (fun s => s) [ crafted_summary ] =
    [ PostJSON "/api/promote" (PromotePayload (Some "17") (Some "LOW"));
      PostJSON "/api/promote" (PromotePayload (Some "17") (Some "HIGH"));
      PostJSON "/api/promote" (PromotePayload (Some "17") (Some "MEDIUM")) ] /\
  promote_requests (fun s => s) [ crafted_link ] =
    [ PostJSON "/api/promote" (PromotePayload (Some "17") (Some "LOW"));
      PostJSON "/api/promote" (PromotePayload (Some "17") (Some "HIGH"));
      PostJSON "/api/promote" (PromotePayload (Some "17") (Some "MEDIUM")) ] /\
  promote_requests (fun s => s) [ crafted_id ] =
    [ PostJSON "/api/promote" (PromotePayload (Some "17") (Some "LOW"));
      PostJSON "/api/promote" (PromotePayload (Some "17") (Some "LOW")) ].
Proof. repeat split; vm_compute; reflexivity. Qed.

(** ** More about the chart *)


Lemma round_int (x : Q) (n : Z) : (x == inject_Z n)%Q -> Qfloor (x + (1 # 2)) = n.
Proof.
  intros Hx. apply Z.le_antisymm.
  - apply round_upper. rewrite Hx. apply Qle_refl.
  - apply round_lower. rewrite Hx. apply Qle_refl.
Qed.


Lemma nearest_not_nan (rnd : Q -> Q) (x : Q) : nearest rnd x <> NaN.
Proof.
  unfold nearest. destruct (Qle_bool overflow x); [done|].
  by destruct (Qle_bool x (- overflow)).
Qed.

Lemma num_le_neg_inf (x : JsNum) : x <> NaN -> num_le (Infinity true) x = true.
Proof. by destruct x as [|[]|x]. Qed.

Lemma num_le_pos_inf (x : JsNum) : x <> NaN -> num_le x (Infinity false) = true.
Proof. by destruct x as [|[]|x]. Qed.

Lemma Math_round_above (p q : JsNum) :
  never_above p q -> never_above (Math_round p) (Math_round q).
Proof.
  rewrite !never_above_iff. intros [->|[->|Hle]]; [by left | right; by left |].
  right; right.
  destruct p as [|s|x], q as [|t|y]; try done. cbn [Math_round num_le] in *.
  apply Qle_bool_iff in Hle. apply Qle_bool_iff. rewrite <- Zle_Qle.
  apply Qfloor_resp_le. by apply Qplus_le_l.
Qed.

Section ChartShape.

Variable rnd : Q -> Q.
Hypothesis rnd_mono : forall x y : Q, (x <= y)%Q -> (rnd x <= rnd y)%Q.
Hypothesis rnd_int :
  forall z : Z, (Z.abs z <= 2 ^ 53)%Z -> (rnd (inject_Z z) == inject_Z z)%Q.

(** A real that is a small integer is a double. *)
Lemma nearest_exact (x : Q) (z : Z) :
  (x == inject_Z z)%Q -> (Z.abs z <= 2 ^ 53)%Z ->
  exists y : Q, nearest rnd x = Num y /\ (y == inject_Z z)%Q.
Proof.
  intros Hx Hz.
  destruct (nearest_between rnd rnd_mono rnd_int x z z Hz Hz) as (y & Hy & H1 & H2).
  - rewrite Hx. apply Qle_refl.
  - rewrite Hx. apply Qle_refl.
  - exists y. split; [exact Hy|]. by apply Qle_antisym.
Qed.

(** The height of a bar once the quotient [val / maxVal] is known to be
    the integer [c] (0 or 1). *)
Lemma bar_bh_of_quotient (H : Z) (y : Q) (c : Z) :
  (y == inject_Z c)%Q -> (Z.abs (c * (H - 120)) <= 2 ^ 53)%Z ->
  Math_round (fmul rnd (Num y) (Num (inject_Z (H - 120))))
  = Num (inject_Z (c * (H - 120))).
Proof.
  intros Hy Hc. unfold fmul.
  destruct (nearest_exact (y * inject_Z (H - 120)) (c * (H - 120)))
    as (p & Hp & Hpz); [|exact Hc|].
  { rewrite Hy, inject_Z_mult. reflexivity. }
  rewrite Hp. cbn [Math_round]. by rewrite (round_int p (c * (H - 120))).
Qed.

Lemma bar_empty (W H : Z) (counts : gmap string JsValue) (i : nat) (k : string) :
  count_or0 counts k = Number (Num 0) ->
  at_least 1 (maxVal counts) ->
  bar_bh (bar rnd W H counts i k) = Num 0 /\
  bar_y (bar rnd W H counts i k) = Num (inject_Z (H - 40)).
Proof.
  intros Hk Hmax.
  assert (Hbh : bar_bh (bar rnd W H counts i k) = Num (inject_Z (0 * (H - 120)))).
  { unfold bar; cbn [bar_bh]. rewrite Hk. cbn [to_number].
    destruct (maxVal counts) as [|[]|m]; simpl in Hmax; try done.
    - change (fdiv rnd (Num 0) (Infinity false)) with (Num 0).
      apply bar_bh_of_quotient; [reflexivity | simpl; lia].
    - unfold fdiv.
      destruct (Qeq_bool m 0) eqn:Hz; [apply Qeq_bool_iff in Hz; lra|].
      destruct (nearest_exact (0 / m) 0) as (y & Hy & Hy0);
        [unfold Qdiv; apply Qmult_0_l | simpl; lia |].
      rewrite Hy. apply bar_bh_of_quotient; [exact Hy0 | simpl; lia]. }
  split; [exact Hbh|].
  change (bar_y (bar rnd W H counts i k))
    with (fsub rnd (Num (inject_Z (bottom H))) (bar_bh (bar rnd W H counts i k))).
  rewrite Hbh. reflexivity.
Qed.



(** Rounding keeps the order, an infinity included. *)
Lemma nearest_mono (x y : Q) :
  (x <= y)%Q -> num_le (nearest rnd x) (nearest rnd y) = true.
Proof.
  intros Hxy. unfold nearest.
  destruct (Qle_bool overflow x) eqn:Hx1.
  { apply Qle_bool_iff in Hx1.
    assert (Hy1 : Qle_bool overflow y = true).
    { apply Qle_bool_iff. by eapply Qle_trans. }
    by rewrite Hy1. }
  destruct (Qle_bool x (- overflow)) eqn:Hx2.
  { apply num_le_neg_inf. apply (nearest_not_nan rnd y). }
  destruct (Qle_bool overflow y) eqn:Hy1; [reflexivity|].
  destruct (Qle_bool y (- overflow)) eqn:Hy2.
  { apply Qle_bool_iff in Hy2.
    assert (Hx2' : Qle_bool x (- overflow) = true).
    { apply Qle_bool_iff. by eapply Qle_trans. }
    congruence. }
  simpl. apply Qle_bool_iff. by apply rnd_mono.
Qed.

Lemma fdiv_above (a b m : JsNum) :
  num_le a b = true -> m = NaN \/ at_least 1 m ->
  never_above (fdiv rnd a m) (fdiv rnd b m).
Proof.
  intros Hab Hm. apply never_above_iff.
  destruct (num_le_not_nan _ _ Hab) as [Ha Hb].
  destruct Hm as [->|Hm]; [left; by destruct a|].
  destruct m as [|[]|m]; simpl in Hm; try done.
  - destruct a as [|s|x]; [done|by left|].
    destruct b as [|t|y]; [done|right; by left|].
    right; right. reflexivity.
  - assert (Hm0 : (0 < m)%Q) by lra.
    assert (Hz : Qeq_bool m 0 = false).
    { destruct (Qeq_bool m 0) eqn:Hz; [apply Qeq_bool_iff in Hz; lra | done]. }
    assert (Hneg : is_negative m = false).
    { unfold is_negative. apply negb_false_iff, Qle_bool_iff. lra. }
    right; right.
    destruct a as [|s|x]; [done| |]; (destruct b as [|t|y]; [done| |]);
      unfold fdiv; rewrite ?Hz, ?Hneg, ?xorb_false_r.
    + exact Hab.
    + destruct s; [|done]. apply num_le_neg_inf, nearest_not_nan.
    + destruct t; [done|]. apply num_le_pos_inf, nearest_not_nan.
    + apply nearest_mono. simpl in Hab. apply Qle_bool_iff in Hab.
      unfold Qdiv. apply Qmult_le_compat_r; [exact Hab|].
      apply Qinv_le_0_compat. lra.
Qed.

Lemma fmul_above (p q : JsNum) (n : Q) :
  never_above p q -> (0 <= n)%Q ->
  never_above (fmul rnd p (Num n)) (fmul rnd q (Num n)).
Proof.
  rewrite !never_above_iff. intros [->|[->|Hle]] Hn;
    [by left | right; left; by destruct p |].
  destruct (num_le_not_nan _ _ Hle) as [Hp Hq].
  destruct (Qeq_bool n 0) eqn:Hz.
  - destruct p as [|s|x]; [done| |]; unfold fmul at 1; rewrite ?Hz; [by left|].
    destruct q as [|t|y]; [done| |]; unfold fmul; rewrite ?Hz; [right; by left|].
    right; right. apply nearest_mono. simpl in Hle. apply Qle_bool_iff in Hle.
    by apply Qmult_le_compat_r.
  - assert (Hneg : is_negative n = false).
    { unfold is_negative. by apply negb_false_iff, Qle_bool_iff. }
    right; right.
    destruct p as [|s|x]; [done| |]; (destruct q as [|t|y]; [done| |]);
      unfold fmul; rewrite ?Hz, ?Hneg, ?xorb_false_r.
    + exact Hle.
    + destruct s; [|done]. apply num_le_neg_inf, nearest_not_nan.
    + destruct t; [done|]. apply num_le_pos_inf, nearest_not_nan.
    + apply nearest_mono. simpl in Hle. apply Qle_bool_iff in Hle.
      by apply Qmult_le_compat_r.
Qed.

Lemma bar_bh_above (W H : Z) (counts : gmap string JsValue) (i j : nat)
    (k1 k2 : string) :
  (120 <= H)%Z ->
  num_le (to_number (count_or0 counts k1)) (to_number (count_or0 counts k2)) = true ->
  never_above (bar_bh (bar rnd W H counts i k1)) (bar_bh (bar rnd W H counts j k2)).
Proof.
  intros HH Hle. unfold bar; cbn [bar_bh].
  apply Math_round_above, fmul_above.
  - apply fdiv_above; [exact Hle|].
    destruct (maxVal_cases counts) as [Hnan|[Hge _]]; [by left | by right].
  - change 0%Q with (inject_Z 0). rewrite <- Zle_Qle. lia.
Qed.

Lemma bar_place (W H : Z) (counts : gmap string JsValue) (i : nat) (k : string) :
  (0 <= H < 2 ^ 32)%Z ->
  nonneg_counts counts ->
  In k keys ->
  exists n : Z,
    bar_bh (bar rnd W H counts i k) = Num (inject_Z n) /\
    is_num (bar_y (bar rnd W H counts i k)) (inject_Z (H - 40 - n)) /\
    (Z.min 0 (H - 120) <= n <= Z.max 0 (H - 120))%Z.
Proof.
  intros HH Hall Hk.
  destruct (bar_bh_between rnd rnd_mono rnd_int W H counts i k HH Hall Hk)
    as (n & Hn & Hbtw).
  exists n. split; [exact Hn|]. split; [|exact Hbtw].
  change (bar_y (bar rnd W H counts i k))
    with (fsub rnd (Num (inject_Z (bottom H))) (bar_bh (bar rnd W H counts i k))).
  rewrite Hn. unfold fsub, bottom.
  assert (Hsub : (inject_Z (H - 40) - inject_Z n == inject_Z (H - 40 - n))%Q).
  { unfold Qminus. rewrite <- inject_Z_opp, <- inject_Z_plus. reflexivity. }
  destruct (Qeq_bool (inject_Z n) 0) eqn:Hz.
  - apply Qeq_bool_iff in Hz. eexists. split; [reflexivity|].
    rewrite <- Hsub, Hz. ring.
  - destruct (nearest_exact (inject_Z (H - 40) - inject_Z n) (H - 40 - n) Hsub)
      as (y & Hy & Hyz).
    + assert (2 ^ 32 < 2 ^ 53)%Z by reflexivity. lia.
    + by exists y.
Qed.

End ChartShape.





(** X4: on a canvas at least 120 high the chart keeps the order of the
    counts: a bar for a smaller (or equal) value is never taller; when
    both heights are finite, the first is at most the second. *)
Theorem chart_order_preserved
    (rnd : Q -> Q) (W H : Z) (counts : gmap string JsValue) (b1 b2 : Bar) :
  (forall x y : Q, (x <= y)%Q -> (rnd x <= rnd y)%Q) ->
  (120 <= H)%Z ->
  In b1 (renderCountsChart rnd W H counts) ->
  In b2 (renderCountsChart rnd W H counts) ->
  num_le (to_number (bar_val b1)) (to_number (bar_val b2)) = true ->
  never_above (bar_bh b1) (bar_bh b2) /\
  forall n1 n2 : Q,
    bar_bh b1 = Num n1 -> bar_bh b2 = Num n2 -> (n1 <= n2)%Q.
Proof.
  intros Hmono HH (i & k1 & _ & ->)%chart_bars (j & k2 & _ & ->)%chart_bars Hle.
  pose proof (bar_bh_above rnd Hmono W H counts i j k1 k2 HH Hle) as Habove.
  split; [exact Habove|].
  intros n1 n2 H1 H2. rewrite H1, H2 in Habove.
  apply never_above_iff in Habove as [?|[?|Hn]]; [done | done |].
  by apply Qle_bool_iff.
Qed.

Lemma chart_order_preserved_witness :
  never_above (bar_bh (bar (fun q => q) 600 300 sample_counts 2 "LOW"))
              (bar_bh (bar (fun q => q) 600 300 sample_counts 0 "HIGH")).
Proof.
  apply (chart_order_preserved (fun q => q) 600 300 sample_counts).
  - intros x y Hxy. exact Hxy.
  - lia.
  - simpl. tauto.
  - simpl. tauto.
  - vm_compute. reflexivity.
Defined.

(** X5: with finite counts, none below zero, on a canvas at least 120
    high, every bar stands on the base line [H - 40] and its top stays
    at least 80 below the top of the canvas, clear of the title. *)
Theorem chart_bar_placement
    (rnd : Q -> Q) (W H : Z) (counts : gmap string JsValue) (b : Bar) :
  (forall x y : Q, (x <= y)%Q -> (rnd x <= rnd y)%Q) ->
  (forall z : Z, (Z.abs z <= 2 ^ 53)%Z -> (rnd (inject_Z z) == inject_Z z)%Q) ->
  (120 <= H < 2 ^ 32)%Z ->
  nonneg_counts counts ->
  In b (renderCountsChart rnd W H counts) ->
  exists bh y : Z,
    bar_bh b = Num (inject_Z bh) /\ is_num (bar_y b) (inject_Z y) /\
    (y + bh = H - 40)%Z /\ (80 <= y <= H - 40)%Z.
Proof.
  intros Hmono Hint HH Hall (i & k & Hk & ->)%chart_bars.
  assert (HH' : (0 <= H < 2 ^ 32)%Z) by lia.
  destruct (bar_place rnd Hmono Hint W H counts i k HH' Hall Hk)
    as (n & Hn & Hy & Hbtw).
  exists n, (H - 40 - n)%Z. split; [exact Hn|]. split; [exact Hy|]. lia.
Qed.

Lemma chart_bar_placement_witness :
  Forall (fun b => exists bh y : Z,
            bar_bh b = Num (inject_Z bh) /\ is_num (bar_y b) (inject_Z y) /\
            (y + bh = 260)%Z /\ (80 <= y <= 260)%Z)
         (renderCountsChart (fun q => q) 600 300 sample_counts).
Proof.
  apply List.Forall_forall. intros b Hb.
  apply (chart_bar_placement (fun q => q) 600 300 sample_counts b).
  - intros x y Hxy. exact Hxy.
  - intros z _. reflexivity.
  - lia.
  - exact sample_counts_nonneg.
  - exact Hb.
Defined.

(** ** [postJSON] and the handlers *)

Lemma train_guard_passes (train_date train_limit : string) :
  valid_train_input train_date train_limit ->
  (negb (str_truthy train_date)
   || negb (num_truthy (parseInt10 (str_or train_limit "0")))
   || num_lt1 (parseInt10 (str_or train_limit "0")))%bool = false.
Proof.
  intros (Hd%str_truthy_spec & Hv%limit_guard). rewrite Hd. exact Hv.
Qed.

Lemma train_click_valid (train_date train_limit : string) (reply : Reply TrainData) :
  valid_train_input train_date train_limit ->
  btn_train_click train_date train_limit reply =
    train_reset ++
    PostJSON "/api/train"
      (TrainPayload train_date (parseInt10 (str_or train_limit "0")))
    :: train_on_reply reply.
Proof.
  intros Hv. unfold btn_train_click. by rewrite train_guard_passes.
Qed.

Lemma str_or_nonempty (a b : string) : b <> EmptyString -> str_or a b <> EmptyString.
Proof. unfold str_or. destruct a; simpl; [auto | discriminate]. Qed.

(** X6: when the server answers a valid Train request with a status
    outside 200-299, the body is not read as JSON; the panel shows
    "Error: " followed by the body, or by "HTTP" and the status when the
    body is empty, so the text after "Error: " is never empty. *)
Theorem train_shows_http_error
    (train_date train_limit : string) (res : HttpResponse TrainData) :
  valid_train_input train_date train_limit ->
  res_ok res = false ->
  exists m : string,
    m <> EmptyString /\
    ((res_text res <> EmptyString /\ m = res_text res) \/
     (res_text res = EmptyString /\ m = "HTTP " +:+ show_nat (res_status res))) /\
    btn_train_click train_date train_limit (postJSON (FetchResolved res)) =
      train_reset ++
      [ PostJSON "/api/train"
          (TrainPayload train_date (parseInt10 (str_or train_limit "0")));
        SetText "train-results" ("Error: " +:+ m) ].
Proof.
  intros Hv Hok.
  exists (str_or (res_text res) ("HTTP " +:+ show_nat (res_status res))).
  split; [by apply str_or_nonempty|]. split.
  - unfold str_or. destruct (res_text res) as [|c s]; simpl.
    + right. done.
    + left. done.
  - rewrite train_click_valid by exact Hv. simpl. by rewrite Hok.
Qed.

Lemma train_shows_http_error_witness :
  btn_train_click "2024-01-01" "5" (postJSON (FetchResolved not_found_response)) =
    train_reset ++
    [ PostJSON "/api/train" (TrainPayload "2024-01-01" (Num 5));
      SetText "train-results" "Error: HTTP 404" ].
Proof.
  destruct (train_shows_http_error "2024-01-01" "5" not_found_response)
    as (m & _ & [[Hne _]|[_ ->]] & Heq).
  - split; [discriminate|]. vm_compute. discriminate.
  - reflexivity.
  - by contradict Hne.
  - exact Heq.
Defined.

(** ** What [parseInt] reads *)

Lemma uint_digit_step (u : Decimal.uint) (acc : nat) (rest : string) :
  read_digits (Some (Z.of_nat acc)) (NilEmpty.string_of_uint u +:+ rest)
  = read_digits (Some (Z.of_nat (Nat.of_uint_acc u acc))) rest.
Proof.
  revert acc. induction u as [|u IH|u IH|u IH|u IH|u IH|u IH|u IH|u IH|u IH|u IH];
    intros acc; [reflexivity|..];
    cbn [NilEmpty.string_of_uint Nat.of_uint_acc];
    match goal with
    | |- context [String ?c ?s +:+ rest] =>
        change (String c s +:+ rest) with (String c (s +:+ rest))
    end;
    cbn [read_digits]; rewrite <- IH; simpl digit_of; cbv iota;
    f_equal; f_equal; rewrite Nat.tail_mul_spec; simpl default;
    match goal with
    | |- context [nat_of_ascii ?c - 48] =>
        let v := eval vm_compute in (nat_of_ascii c - 48) in
        change (nat_of_ascii c - 48) with v
    end; lia.
Qed.

Lemma to_uint_nonnil (n : nat) : Nat.to_uint n <> Decimal.Nil.
Proof.
  intros Hn. pose proof (DecimalNat.Unsigned.of_to n) as Hof.
  rewrite Hn in Hof. simpl in Hof. subst n. discriminate.
Qed.

Lemma show_nat_digits (n : nat) :
  show_nat n = NilEmpty.string_of_uint (Nat.to_uint n).
Proof.
  unfold show_nat, NilZero.string_of_uint.
  pose proof (to_uint_nonnil n). by destruct (Nat.to_uint n).
Qed.

(** The first character of a decimal numeral is a digit. *)
Lemma show_nat_head (n : nat) :
  exists (c : ascii) (s : string) (d : Z),
    show_nat n = String c s /\ digit_of c = Some d.
Proof.
  rewrite show_nat_digits. pose proof (to_uint_nonnil n).
  destruct (Nat.to_uint n); [done|..]; simpl; eexists _, _, _; split;
    reflexivity.
Qed.

Lemma read_digits_start (c : ascii) (s : string) (d : Z) :
  digit_of c = Some d ->
  read_digits None (String c s) = read_digits (Some (Z.of_nat 0)) (String c s).
Proof. intros Hd. simpl. by rewrite Hd. Qed.

Lemma read_digits_stop (acc : option Z) (rest : string) :
  no_leading_digit rest -> read_digits acc rest = acc.
Proof. destruct rest as [|c s]; simpl; [done|]. by intros ->. Qed.

Lemma digit_not_space (c : ascii) (d : Z) :
  digit_of c = Some d ->
  (forall s, skip_space (String c s) = String c s) /\
  c <> "-"%char /\ c <> "+"%char.
Proof.
  unfold digit_of. intros Hd.
  destruct (Nat.leb 48 (nat_of_ascii c)) eqn:H1; [|discriminate].
  destruct (Nat.leb (nat_of_ascii c) 57) eqn:H2; [|discriminate].
  split; [|split; intros ->; vm_compute in H1; discriminate].
  apply Nat.leb_le in H1, H2.
  assert (Hsp : is_js_space c = false).
  { unfold is_js_space. repeat (apply orb_false_intro); apply Nat.eqb_neq; lia. }
  assert (H194 : Nat.eqb (nat_of_ascii c) 194 = false) by (apply Nat.eqb_neq; lia).
  assert (H3 : forall c2 c3, is_js_space3 c c2 c3 = false).
  { intros c2 c3. unfold is_js_space3.
    replace (Nat.eqb (nat_of_ascii c) 225) with false
      by (symmetry; apply Nat.eqb_neq; lia).
    replace (Nat.eqb (nat_of_ascii c) 226) with false
      by (symmetry; apply Nat.eqb_neq; lia).
    replace (Nat.eqb (nat_of_ascii c) 227) with false
      by (symmetry; apply Nat.eqb_neq; lia).
    replace (Nat.eqb (nat_of_ascii c) 239) with false
      by (symmetry; apply Nat.eqb_neq; lia).
    reflexivity. }
  intros s. cbn [skip_space]. rewrite Hsp.
  destruct s as [|c2 s]; [reflexivity|].
  unfold is_js_space2. rewrite H194. cbn [andb].
  destruct s as [|c3 s]; [reflexivity|]. by rewrite H3.
Qed.

(** An integer of magnitude up to 2^53 is a double. *)
Lemma double_of_int_small (z : Z) :
  (Z.abs z <= 2 ^ 53)%Z -> double_of_int z = Num (inject_Z z).
Proof.
  intros Hz. unfold double_of_int.
  destruct (Z.leb_spec (Z.log2 (Z.abs z)) 52) as [Hlog|Hlog]; [reflexivity|].
  assert (Habs : Z.abs z = (2 ^ 53)%Z).
  { apply Z.le_antisymm; [exact Hz|].
    apply Z.log2_le_pow2; [|lia].
    destruct (Z.abs z) eqn:Heq; try lia. simpl in Hlog. lia. }
  destruct (Z.abs_eq_or_opp z) as [Heq|Heq]; rewrite Heq in Habs.
  - rewrite Habs. vm_compute. reflexivity.
  - assert (Hz' : z = (- 2 ^ 53)%Z) by lia. rewrite Hz'. vm_compute. reflexivity.
Qed.

Lemma parseInt10_numeral (n : nat) (rest : string) :
  no_leading_digit rest ->
  parseInt10 (show_nat n +:+ rest) = double_of_int (Z.of_nat n).
Proof.
  intros Hrest. destruct (show_nat_head n) as (c & s & d & Hs & Hd).
  destruct (digit_not_space c d Hd) as (Hsp & Hminus & Hplus).
  unfold parseInt10.
  assert (Hskip : skip_space (show_nat n +:+ rest) = show_nat n +:+ rest).
  { rewrite Hs. change (String c s +:+ rest) with (String c (s +:+ rest)).
    apply Hsp. }
  rewrite Hskip.
  assert (Hsign : (match show_nat n +:+ rest with
                   | String "-"%char r => (true, r)
                   | String "+"%char r => (false, r)
                   | _ => (false, show_nat n +:+ rest)
                   end) = (false, show_nat n +:+ rest)).
  { rewrite Hs. change (String c s +:+ rest) with (String c (s +:+ rest)).
    destruct c as [[] [] [] [] [] [] [] []]; try reflexivity; congruence. }
  rewrite Hsign.
  assert (Hread : read_digits None (show_nat n +:+ rest) = Some (Z.of_nat n)).
  { transitivity (read_digits (Some (Z.of_nat 0)) (show_nat n +:+ rest)).
    - rewrite Hs. change (String c s +:+ rest) with (String c (s +:+ rest)).
      by eapply read_digits_start.
    - rewrite show_nat_digits, uint_digit_step, read_digits_stop by exact Hrest.
      f_equal. f_equal. apply DecimalNat.Unsigned.of_to. }
  by rewrite Hread.
Qed.

(** X7: the limit is read as [parseInt] reads it: a decimal numeral
    followed by anything that does not start with a digit ("5 mails",
    "2.9", "3e2") counts as that numeral; with a start date and a
    numeral from 1 to 2^53 the handler posts the request with that
    limit. *)
Theorem train_accepts_numeral_prefix
    (train_date : string) (n : nat) (rest : string) (reply : Reply TrainData) :
  train_date <> EmptyString ->
  1 <= n ->
  (Z.of_nat n <= 2 ^ 53)%Z ->
  no_leading_digit rest ->
  btn_train_click train_date (show_nat n +:+ rest) reply =
    train_reset ++
    PostJSON "/api/train" (TrainPayload train_date (Num (inject_Z (Z.of_nat n))))
    :: train_on_reply reply.
Proof.
  intros Hdate Hn Hsmall Hrest.
  assert (Hor : str_or (show_nat n +:+ rest) "0" = show_nat n +:+ rest).
  { destruct (show_nat_head n) as (c & s & d & -> & _). reflexivity. }
  assert (Hparse : parseInt10 (show_nat n +:+ rest) = Num (inject_Z (Z.of_nat n))).
  { rewrite parseInt10_numeral by exact Hrest. apply double_of_int_small. lia. }
  rewrite train_click_valid.
  - by rewrite Hor, Hparse.
  - split; [exact Hdate|]. rewrite Hor, Hparse. simpl.
    change 1%Q with (inject_Z 1). rewrite <- Zle_Qle. lia.
Qed.

Lemma train_accepts_numeral_prefix_witness :
  btn_train_click "2024-01-01" "12.5" (Failed "offline") =
    train_reset ++
    [ PostJSON "/api/train" (TrainPayload "2024-01-01" (Num 12));
      SetText "train-results" "Error: offline" ].
Proof.
  apply (train_accepts_numeral_prefix "2024-01-01" 12 ".5" (Failed "offline")).
  - discriminate.
  - lia.
  - vm_compute. discriminate.
  - reflexivity.
Defined.

(** ** The labelling form *)

Lemma digits_free (x : ascii) (u : Decimal.uint) :
  digit_of x = None -> char_free x (NilEmpty.string_of_uint u) = true.
Proof.
  intros Hx.
  induction u; cbn [NilEmpty.string_of_uint char_free]; [reflexivity|..];
    rewrite IHu, andb_true_r; apply negb_true_iff;
    match goal with
    | |- Ascii.eqb ?c x = false =>
        destruct (Ascii.eqb_spec c x) as [<-|]; [discriminate Hx | reflexivity]
    end.
Qed.

Lemma show_nat_free (x : ascii) (n : nat) :
  digit_of x = None -> char_free x (show_nat n) = true.
Proof. intros Hx. rewrite show_nat_digits. by apply digits_free. Qed.

Lemma show_nat_dq_free (n : nat) : char_free "034" (show_nat n) = true.
Proof. by apply show_nat_free. Qed.

Lemma show_nat_inj (i j : nat) : show_nat i = show_nat j -> i = j.
Proof.
  rewrite !show_nat_digits. intros Heq.
  apply DecimalNat.Unsigned.to_uint_inj.
  pose proof (NilEmpty.usu (Nat.to_uint i)) as Hi.
  pose proof (NilEmpty.usu (Nat.to_uint j)) as Hj.
  rewrite Heq in Hi. congruence.
Qed.

Lemma char_free_app (x : ascii) (s1 s2 : string) :
  char_free x (s1 +:+ s2) = (char_free x s1 && char_free x s2)%bool.
Proof.
  induction s1 as [|c s1 IH]; [reflexivity|].
  change (String c s1 +:+ s2) with (String c (s1 +:+ s2)).
  cbn [char_free]. by rewrite IH, andb_assoc.
Qed.

(** The name of a radio group is read from the markup as it stands. *)
Lemma group_name_verbatim (i : nat) : verbatim ("label_" +:+ show_nat i).
Proof.
  unfold verbatim. rewrite !char_free_app, !show_nat_free by reflexivity.
  repeat split; reflexivity.
Qed.

(** As [tok_eval], with the index of the sample among the spliced
    pieces. *)
Ltac tok_eval_form :=
  match goal with
  | |- context [tok_run ?d (Build_Tok ?m ?e ?n ?a ?c ?em) ?s] =>
      first
        [ rewrite (tok_run_text d (Build_Tok m e n a c em) s)
            by first [reflexivity | assumption | apply show_nat_lt_free]
        | match c with
          | Some (?k, ?v) =>
              rewrite (tok_run_dq_value d e n a k v s em)
                by first [assumption | reflexivity | apply show_nat_dq_free]
          end
        | let v := eval vm_compute in (tok_run d (Build_Tok m e n a c em) s) in
          replace (tok_run d (Build_Tok m e n a c em) s) with v
            by (vm_compute; reflexivity) ]
  end.

Lemma parse_sample (decode : string -> string) (i : nat) (s : Sample) :
  plain_sample s ->
  parse_fragment decode (sample_html i s) = sample_elements i.
Proof.
  destruct s as [eid subj summ]. intros (Hsubj & Hsumm); simpl in *.
  pose proof (read_value_verbatim decode _ (group_name_verbatim i)) as Hname.
  unfold parse_fragment, sample_html, radio_html, attr, tok_init.
  repeat rewrite tok_run_app.
  repeat tok_eval_form.
  unfold sample_elements, radio_input. rewrite <- Hname.
  reflexivity.
Qed.

Lemma elements_of_imap {A : Type} (decode : string -> string)
    (f : nat -> A -> string) (l : list A) :
  map (elements_of decode) (imap (fun i x => AppendItem "label-area" (f i x)) l)
  = imap (fun i x => item_div :: parse_fragment decode (f i x)) l.
Proof.
  revert f. induction l as [|x l IH]; intros f; [reflexivity|].
  rewrite !imap_cons. simpl. f_equal. apply (IH (fun i => f (S i))).
Qed.

Lemma label_area_items (decode : string -> string) (samples : list Sample) :
  label_area decode samples =
  mjoin (imap (fun i s => item_div :: parse_fragment decode (sample_html i s))
              samples).
Proof.
  unfold label_area, train_on_reply. simpl.
  destruct samples as [|s samples]; [reflexivity|].
  rewrite map_app, elements_of_imap, join_app.
  change (mjoin (map (elements_of decode) _)) with (@nil Element).
  by rewrite app_nil_r.
Qed.

Lemma radio_input_name (i : nat) (v : string) :
  getAttribute "name" (radio_input i v) = Some ("label_" +:+ show_nat i).
Proof. reflexivity. Qed.

Lemma radio_input_value (i : nat) (v : string) :
  getAttribute "value" (radio_input i v) = Some v.
Proof. reflexivity. Qed.

(** The inputs of one rendered sample that carry a given name. *)
Lemma named_inputs_sample (name : string) (j : nat) :
  named_inputs name (item_div :: sample_elements j) =
  if decide (name = "label_" +:+ show_nat j)
  then [ radio_input j "HIGH"; radio_input j "MEDIUM"; radio_input j "LOW" ]
  else [].
Proof.
  unfold named_inputs, sample_elements.
  destruct (decide (name = "label_" +:+ show_nat j)) as [->|Hne];
    repeat (rewrite filter_cons;
            first [ rewrite decide_True by (split; reflexivity)
                  | rewrite decide_False by (intros [Ht _]; discriminate Ht)
                  | rewrite decide_False
                      by (intros [_ Hn]; rewrite radio_input_name in Hn;
                          congruence) ]);
    reflexivity.
Qed.

Lemma radio_group_from (decode : string -> string) (samples : list Sample)
    (i k : nat) :
  Forall plain_sample samples ->
  named_inputs ("label_" +:+ show_nat i)
    (mjoin (imap (fun j s =>
                    item_div :: parse_fragment decode (sample_html (k + j) s))
                 samples))
  = if decide (k <= i < k + length samples)
    then [ radio_input i "HIGH"; radio_input i "MEDIUM"; radio_input i "LOW" ]
    else [].
Proof.
  intros Hall. revert k. induction Hall as [|s samples Hs _ IH]; intros k.
  - simpl. rewrite decide_False by lia. reflexivity.
  - rewrite imap_cons.
    match goal with
    | |- context [mjoin (?x :: ?l)] =>
        change (mjoin (x :: l)) with (x ++ mjoin l)
    end.
    unfold named_inputs in *. rewrite filter_app.
    rewrite parse_sample by exact Hs.
    fold (named_inputs ("label_" +:+ show_nat i)
            (item_div :: sample_elements (k + 0))).
    rewrite named_inputs_sample.
    assert (Hrest :
      filter (fun el => tag el = "input" /\
                        getAttribute "name" el = Some ("label_" +:+ show_nat i))
        (mjoin (imap ((fun j s0 => item_div
                         :: parse_fragment decode (sample_html (k + j) s0)) ∘ S)
                     samples))
      = if decide (S k <= i < S k + length samples)
        then [ radio_input i "HIGH"; radio_input i "MEDIUM"; radio_input i "LOW" ]
        else []).
    { rewrite <- (IH (S k)). f_equal. f_equal. apply imap_ext.
      intros j x _. simpl. by rewrite Nat.add_succ_r. }
    rewrite Hrest. simpl length.
    destruct (decide ("label_" +:+ show_nat i = "label_" +:+ show_nat (k + 0)))
      as [Heq|Hne].
    + apply (inj (String.append "label_")) in Heq. apply show_nat_inj in Heq.
      rewrite decide_False by lia. rewrite decide_True by lia.
      rewrite app_nil_r. by replace (k + 0) with i by lia.
    + assert (i <> k).
      { intros ->. apply Hne. by rewrite Nat.add_0_r. }
      destruct (decide (S k <= i < S k + length samples)).
      * rewrite decide_True by lia. reflexivity.
      * rewrite decide_False by lia. reflexivity.
Qed.

(** The values on offer in a radio group of the form. *)
Lemma radio_group_values (decode : string -> string) (samples : list Sample)
    (i : nat) (v : string) :
  Forall plain_sample samples ->
  Some v ∈ map (getAttribute "value") (radio_group decode i samples) ->
  v = "HIGH" \/ v = "MEDIUM" \/ v = "LOW".
Proof.
  intros Hall. unfold radio_group. rewrite label_area_items.
  pose proof (radio_group_from decode samples i 0 Hall) as Hg.
  cbn [Nat.add] in Hg. rewrite Hg.
  destruct (decide (0 <= i < length samples)).
  - intros (el & Hv & Hel)%list_elem_of_fmap.
    repeat (apply elem_of_cons in Hel as [->|Hel];
            [rewrite radio_input_value in Hv; injection Hv as ->; tauto|]).
    by apply elem_of_nil in Hel.
  - by intros ?%elem_of_nil.
Qed.

(** X8: when no sample carries markup in its subject or summary, the
    labelling form holds one radio group per sample, [label_i] for the
    sample at index [i], with exactly the three buttons HIGH, MEDIUM and
    LOW in this order; no two samples share a group, and there is no
    group beyond the samples. *)
Theorem label_form_groups (decode : string -> string) (samples : list Sample)
    (i : nat) :
  Forall plain_sample samples ->
  (i < length samples ->
   radio_group decode i samples =
     [ radio_input i "HIGH"; radio_input i "MEDIUM"; radio_input i "LOW" ]) /\
  (length samples <= i -> radio_group decode i samples = []).
Proof.
  intros Hall. unfold radio_group. rewrite label_area_items.
  pose proof (radio_group_from decode samples i 0 Hall) as Hg.
  cbn [Nat.add] in Hg. rewrite Hg.
  split; intros Hi; [rewrite decide_True by lia | rewrite decide_False by lia];
    reflexivity.
Qed.

Lemma label_form_groups_witness :
  map (getAttribute "value")
      (radio_group (fun s => s) 1 [ sample_one; sample_two ])
  = [ Some "HIGH"; Some "MEDIUM"; Some "LOW" ].
Proof.
  destruct (label_form_groups (fun s => s) [ sample_one; sample_two ] 1)
    as [Hin _].
  - repeat constructor.
  - rewrite Hin by (simpl; lia). reflexivity.
Defined.

(** ** Submitting labels *)

(** The items that the submit handler collects. *)
Lemma submit_items_spec (samples : list Sample) (checked : nat -> option string)
    (it : LabelItem) :
  it ∈ omap (fun p : nat * Sample =>
               match checked p.1 with
               | Some v =>
                   Some {| label_email_id := sample_email_id p.2;
                           label_subject := sample_subject p.2;
                           label_summary := sample_summary p.2;
                           label_value := v |}
               | None => None
               end) (imap pair samples)
  <-> exists i s v,
        samples !! i = Some s /\ checked i = Some v /\ it = labelled s v.
Proof.
  rewrite list_elem_of_omap. split.
  - intros ([i s] & Hin & Hit). apply elem_of_lookup_imap in Hin as (j & x & Heq & Hx).
    injection Heq as -> ->. simpl in Hit.
    destruct (checked j) as [v|] eqn:Hv; [|discriminate].
    injection Hit as <-. by exists j, x, v.
  - intros (i & s & v & Hs & Hv & ->). exists (i, s). split.
    + apply elem_of_lookup_imap. by exists i, s.
    + simpl. by rewrite Hv.
Qed.

Lemma submit_click_cases (samples : list Sample) (checked : nat -> option string)
    (reply : Reply (option string)) :
  let items :=
    omap (fun p : nat * Sample =>
            match checked p.1 with
            | Some v =>
                Some {| label_email_id := sample_email_id p.2;
                        label_subject := sample_subject p.2;
                        label_summary := sample_summary p.2;
                        label_value := v |}
            | None => None
            end) (imap pair samples) in
  (items = [] /\
   btn_submit_labels_click samples checked reply
     = [ Alert "Please label at least one item." ]) \/
  (items <> [] /\
   exists a : string,
     btn_submit_labels_click samples checked reply
       = [ PostJSON "/api/label" (LabelPayload items); Alert a ]).
Proof.
  intros items. unfold btn_submit_labels_click. fold items.
  destruct items as [|it rest]; [by left|]. right. split; [done|].
  destruct reply; eexists; reflexivity.
Qed.

Lemma Forall2_impl_l {A B : Type} (P P' : A -> B -> Prop) (Q : A -> Prop)
    (l1 : list A) (l2 : list B) :
  Forall2 P l1 l2 -> Forall Q l1 ->
  (forall x y, Q x -> P x y -> P' x y) -> Forall2 P' l1 l2.
Proof.
  intros H12 HQ Himpl. induction H12 as [|x y l1 l2 Hxy _ IH]; [constructor|].
  apply Forall_cons in HQ as [Hx HQ]. constructor; [by apply Himpl | by apply IH].
Qed.

(** The entries that the submit handler collects, by the positions of
    the labelled samples; [k] is the index of the first sample. *)
Lemma submit_items_positions (checked : nat -> option string)
    (samples : list Sample) (k : nat) :
  exists positions : list nat,
    StronglySorted lt positions /\
    Forall (fun i => k <= i) positions /\
    (forall i, i ∈ positions <->
       k <= i /\ exists s v, samples !! (i - k) = Some s /\ checked i = Some v) /\
    Forall2 (fun i it =>
               exists s v,
                 samples !! (i - k) = Some s /\ checked i = Some v /\
                 it = labelled s v)
      positions
      (omap (fun p : nat * Sample =>
               match checked p.1 with
               | Some v =>
                   Some {| label_email_id := sample_email_id p.2;
                           label_subject := sample_subject p.2;
                           label_summary := sample_summary p.2;
                           label_value := v |}
               | None => None
               end) (imap (fun j s => (k + j, s)) samples)).
Proof.
  revert k. induction samples as [|s samples IH]; intros k.
  - exists []. split; [constructor|]. split; [constructor|]. split; [|constructor].
    intros i. split; [by intros ?%elem_of_nil|].
    intros (_ & s & v & Hs & _). by rewrite lookup_nil in Hs.
  - destruct (IH (S k)) as (positions & Hsorted & Hge & Hmem & Hitems).
    rewrite imap_cons. cbn [omap list_omap fst snd].
    replace (imap ((fun j s0 => (k + j, s0)) ∘ S) samples)
      with (imap (fun j s0 => (S k + j, s0)) samples)
      by (apply imap_ext; intros j x _; simpl; f_equal; lia).
    assert (Htail : Forall2 (fun i it =>
               exists s' v,
                 (s :: samples) !! (i - k) = Some s' /\ checked i = Some v /\
                 it = labelled s' v)
      positions
      (omap (fun p : nat * Sample =>
               match checked p.1 with
               | Some v =>
                   Some {| label_email_id := sample_email_id p.2;
                           label_subject := sample_subject p.2;
                           label_summary := sample_summary p.2;
                           label_value := v |}
               | None => None
               end) (imap (fun j s0 => (S k + j, s0)) samples))).
    { eapply Forall2_impl_l; [exact Hitems | exact Hge |].
      intros i it Hi (s' & v & Hs & Hv & ->). simpl in Hi. exists s', v.
      split; [|done]. replace (i - k) with (S (i - S k)) by lia. exact Hs. }
    assert (Hmem' : forall i, i ∈ positions ->
              k <= i /\ exists s' v,
                (s :: samples) !! (i - k) = Some s' /\ checked i = Some v).
    { intros i (Hi & s' & v & Hs & Hv)%Hmem. split; [lia|]. exists s', v.
      split; [|done]. replace (i - k) with (S (i - S k)) by lia. exact Hs. }
    assert (Hback : forall i, S k <= i ->
              (exists s' v,
                 (s :: samples) !! (i - k) = Some s' /\ checked i = Some v) ->
              i ∈ positions).
    { intros i Hi (s' & v & Hs & Hv). apply Hmem. split; [exact Hi|].
      exists s', v. split; [|done].
      replace (i - k) with (S (i - S k)) in Hs by lia. exact Hs. }
    rewrite Nat.add_0_r. destruct (checked k) as [v|] eqn:Hk.
    + exists (k :: positions). split; [|split; [|split]].
      * constructor; [exact Hsorted|].
        eapply Forall_impl; [exact Hge|]. simpl. lia.
      * constructor; [lia|]. eapply Forall_impl; [exact Hge|]. simpl. lia.
      * intros i. rewrite elem_of_cons. split.
        -- intros [->|Hi]; [|by apply Hmem'].
           split; [lia|]. exists s, v. by rewrite Nat.sub_diag.
        -- intros (Hi & Hex).
           destruct (decide (i = k)) as [->|Hne]; [by left|].
           right. apply Hback; [lia | exact Hex].
      * constructor; [|exact Htail].
        exists s, v. by rewrite Nat.sub_diag.
    + exists positions. split; [exact Hsorted|]. split; [|split; [|exact Htail]].
      * eapply Forall_impl; [exact Hge|]. simpl. lia.
      * intros i. split; [apply Hmem'|].
        intros (Hi & s' & v & Hs & Hv).
        destruct (decide (i = k)) as [->|Hne]; [congruence|].
        apply Hback; [lia|]. by exists s', v.
Qed.

(** X9: the submit handler posts to /api/label exactly when at least one
    sample has a label checked; the request then carries exactly one
    entry for each labelled sample, in the order of the samples, with
    the sample's id, subject and summary and the checked value; with
    nothing checked it posts nothing and asks for a label. *)
Theorem submit_labels_request
    (samples : list Sample) (checked : nat -> option string)
    (reply : Reply (option string)) :
  exists (positions : list nat) (items : list LabelItem),
    StronglySorted lt positions /\
    (forall i, i ∈ positions <->
       exists s v, samples !! i = Some s /\ checked i = Some v) /\
    Forall2 (fun i it =>
               exists s v,
                 samples !! i = Some s /\ checked i = Some v /\
                 it = labelled s v)
            positions items /\
    ((positions = [] /\
      btn_submit_labels_click samples checked reply
        = [ Alert "Please label at least one item." ]) \/
     (positions <> [] /\
      exists a : string,
        btn_submit_labels_click samples checked reply
          = [ PostJSON "/api/label" (LabelPayload items); Alert a ])).
Proof.
  destruct (submit_items_positions checked samples 0)
    as (positions & Hsorted & _ & Hmem & Hitems).
  change (imap (fun j s => (0 + j, s)) samples) with (imap pair samples) in Hitems.
  eexists positions, _. split; [exact Hsorted|]. split; [|split].
  - intros i. rewrite Hmem, Nat.sub_0_r. split; [by intros [_ ?] | intros ?; split; [lia | done]].
  - eapply Forall2_impl; [exact Hitems|].
    intros i it (s & v & Hs & Hv & ->). rewrite Nat.sub_0_r in Hs. by exists s, v.
  - destruct (submit_click_cases samples checked reply)
      as [[Hnil Heff]|[Hne (a & Heff)]].
    + left. split; [|exact Heff]. rewrite Hnil in Hitems.
      by apply Forall2_nil_inv_r in Hitems.
    + right. split; [|by exists a].
      intros ->. apply Forall2_nil_inv_l in Hitems. by apply Hne.
Qed.

(** X10: when no sample carries markup in its subject or summary and
    every checked value is the value of a rendered button of its group,
    each label that the submit handler posts is HIGH, MEDIUM or LOW. *)
Theorem submitted_labels_in_range (decode : string -> string)
    (samples : list Sample) (checked : nat -> option string)
    (reply : Reply (option string)) (items : list LabelItem) (it : LabelItem) :
  Forall plain_sample samples ->
  chosen_in_form decode samples checked ->
  In (PostJSON "/api/label" (LabelPayload items))
     (btn_submit_labels_click samples checked reply) ->
  it ∈ items ->
  label_value it = "HIGH" \/ label_value it = "MEDIUM" \/ label_value it = "LOW".
Proof.
  intros Hplain Hform Hpost Hit.
  pose proof (submit_items_spec samples checked) as Hspec.
  destruct (submit_click_cases samples checked reply)
    as [[Hnil Heff]|[Hne (a & Heff)]]; rewrite Heff in Hpost.
  { destruct Hpost as [Hp|[]]. discriminate. }
  destruct Hpost as [Hp|[Hp|[]]]; [|discriminate].
  injection Hp as <-.
  apply Hspec in Hit as (i & s & v & Hs & Hv & ->). simpl.
  by apply (radio_group_values decode samples i v Hplain), Hform.
Qed.

Lemma submitted_labels_in_range_witness :
  In (PostJSON "/api/label" (LabelPayload [ labelled sample_two "LOW" ]))
     (btn_submit_labels_click [ sample_one; sample_two ] check_second (Replied None))
  /\ (label_value (labelled sample_two "LOW") = "HIGH" \/
      label_value (labelled sample_two "LOW") = "MEDIUM" \/
      label_value (labelled sample_two "LOW") = "LOW").
Proof.
  assert (Hpost :
    In (PostJSON "/api/label" (LabelPayload [ labelled sample_two "LOW" ]))
       (btn_submit_labels_click [ sample_one; sample_two ] check_second
          (Replied None))).
  { left. reflexivity. }
  split; [exact Hpost|].
  apply (submitted_labels_in_range (fun s => s) [ sample_one; sample_two ]
           check_second (Replied None) [ labelled sample_two "LOW" ]).
  - repeat constructor.
  - intros i v Hv. unfold check_second in Hv.
    destruct (Nat.eqb_spec i 1) as [->|]; [|discriminate].
    injection Hv as <-.
    apply (bool_decide_unpack _). vm_compute. exact I.
  - exact Hpost.
  - apply list_elem_of_here.
Defined.

(** ** Recovery and Process: when a request is made, when the chart is drawn *)

Lemma requests_app (l1 l2 : list Effect) :
  requests (l1 ++ l2) = requests l1 ++ requests l2.
Proof. unfold requests. apply omap_app. Qed.

Lemma requests_append_items {A : Type} (f : nat -> A -> string) (l : list A) :
  requests (imap (fun i x => AppendItem "recovery-results" (f i x)) l) = [].
Proof.
  revert f. induction l as [|x l IH]; intros f; [reflexivity|].
  rewrite imap_cons. simpl. apply (IH (fun i => f (S i))).
Qed.

(** X11: the Recovery handler makes exactly one request, to
    /api/recovery with the start date, when a start date is given, and
    none when it is empty, whatever the server would answer; with an
    empty date it shows "Provide a start date.". *)
Theorem recovery_click_requests
    (recovery_date : string) (reply : Reply (list RecoveryItem)) :
  (recovery_date <> EmptyString /\
   requests (btn_recovery_click recovery_date reply)
     = [ ("/api/recovery", RecoveryPayload recovery_date) ])
  \/
  (recovery_date = EmptyString /\
   requests (btn_recovery_click recovery_date reply) = [] /\
   btn_recovery_click recovery_date reply =
     [ SetHTML "recovery-results" EmptyString;
       SetText "recovery-results" "Provide a start date." ]).
Proof.
  unfold btn_recovery_click.
  destruct recovery_date as [|c s]; simpl; [right; done|].
  left. split; [done|]. f_equal.
  destruct reply as [m|[|item items]]; try reflexivity.
  apply (requests_append_items item_html (item :: items)).
Qed.

Lemma process_requests_on_reply (show_number : JsValue -> string) (type_error : string)
    (reply : Reply ProcessData) :
  process_requests (process_on_reply show_number type_error reply) = [].
Proof.
  unfold process_requests.
  destruct reply as [m|[counts [items|]]]; simpl; try reflexivity.
  rewrite omap_app. simpl. rewrite app_nil_r.
  induction items as [|x items IH]; [reflexivity | exact IH].
Qed.

Lemma charts_of_items (rnd : Q -> Q) (W H : Z) (items : list ProcessedItem) :
  charts_drawn rnd W H
    (map (fun item => Page (AppendItem "process-results" (processed_html item)))
         items) = [].
Proof. induction items as [|x items IH]; [reflexivity | exact IH]. Qed.

Lemma charts_on_reply (rnd : Q -> Q) (W H : Z) (show_number : JsValue -> string)
    (type_error : string) (reply : Reply ProcessData) :
  charts_drawn rnd W H (process_on_reply show_number type_error reply) =
    match reply with
    | Replied data =>
        match processed_items data with
        | Some _ => [ renderCountsChart rnd W H (default ∅ (moved_counts data)) ]
        | None => []
        end
    | Failed _ => []
    end.
Proof.
  destruct reply as [m|[counts [items|]]]; try reflexivity.
  unfold process_on_reply. cbn [processed_items moved_counts].
  change (charts_drawn rnd W H (?e :: ?l)) with (charts_drawn rnd W H l).
  unfold charts_drawn at 1. rewrite omap_app.
  fold (charts_drawn rnd W H
          (map (fun item =>
                  Page (AppendItem "process-results" (processed_html item)))
               items)).
  by rewrite charts_of_items.
Qed.

(** X12: the Process handler makes exactly one request, with the start
    date, when a start date is given, and none when it is empty.  It
    redraws the chart exactly when a date is given and the reply is a
    success that has an [items] list; it then draws it once, from the
    [moved_counts] of the reply, or from an empty object when they are
    missing. *)
Theorem process_click_outcome
    (rnd : Q -> Q) (W H : Z) (show_number : JsValue -> string) (type_error : string)
    (process_date : string) (reply : Reply ProcessData) :
  let effects := btn_process_click show_number type_error process_date reply in
  (process_requests effects
     = if str_truthy process_date then [ process_date ] else []) /\
  ((exists bars, In bars (charts_drawn rnd W H effects)) <->
   process_date <> EmptyString /\
   exists data items, reply = Replied data /\ processed_items data = Some items) /\
  (forall data items,
     process_date <> EmptyString -> reply = Replied data ->
     processed_items data = Some items ->
     charts_drawn rnd W H effects
       = [ renderCountsChart rnd W H (default ∅ (moved_counts data)) ]).
Proof.
  intros effects. subst effects. unfold btn_process_click.
  destruct process_date as [|c s]; simpl.
  - split; [reflexivity|]. split; [|by intros data items []].
    split; [by intros (bars & []) | by intros ([] & _)].
  - change (charts_drawn rnd W H (?e1 :: ?e2 :: ?l))
      with (charts_drawn rnd W H l).
    change (process_requests (?e1 :: PostProcess ?d :: ?l))
      with (d :: process_requests l).
    rewrite process_requests_on_reply, charts_on_reply.
    split; [reflexivity|]. split.
    + split.
      * intros (bars & Hin). split; [done|].
        destruct reply as [m|data]; [destruct Hin|].
        destruct (processed_items data) as [items|] eqn:Hitems; [|destruct Hin].
        by exists data, items.
      * intros (_ & data & items & -> & ->). eexists. by left.
    + by intros data items _ -> ->.
Qed.

(** X13: when the reply to Process has items but no [moved_counts], the
    handler goes on with an empty object: the header reads the count 0
    three times, and the chart it draws has three empty bars. *)
Theorem process_missing_counts
    (rnd : Q -> Q) (W H : Z) (show_number : JsValue -> string) (type_error : string)
    (process_date : string) (items : list ProcessedItem) :
  (forall x y : Q, (x <= y)%Q -> (rnd x <= rnd y)%Q) ->
  (forall z : Z, (Z.abs z <= 2 ^ 53)%Z -> (rnd (inject_Z z) == inject_Z z)%Q) ->
  process_date <> EmptyString ->
  let effects :=
    btn_process_click show_number type_error process_date
      (Replied {| moved_counts := None; processed_items := Some items |}) in
  In (AppendHeader
        ("<strong>Moved:</strong> HIGH " +:+ show_number (Number (Num 0))
         +:+ ", MEDIUM " +:+ show_number (Number (Num 0))
         +:+ ", LOW " +:+ show_number (Number (Num 0)))) effects /\
  exists bars,
    charts_drawn rnd W H effects = [ bars ] /\
    length bars = 3 /\
    Forall (fun b => bar_val b = Number (Num 0) /\ bar_bh b = Num 0) bars.
Proof.
  intros Hmono Hint Hdate effects. subst effects. unfold btn_process_click.
  destruct process_date as [|c s]; [done|]. simpl.
  split; [right; right; left; reflexivity|].
  change (charts_drawn rnd W H (?e1 :: ?e2 :: ?e3 :: ?l))
    with (charts_drawn rnd W H l).
  unfold charts_drawn. rewrite omap_app.
  fold (charts_drawn rnd W H
          (map (fun item =>
                  Page (AppendItem "process-results" (processed_html item)))
               items)).
  rewrite charts_of_items. simpl.
  eexists. split; [reflexivity|]. split; [reflexivity|].
  apply List.Forall_forall. intros b (i & k & Hk & ->)%chart_bars.
  assert (Hz : count_or0 ∅ k = Number (Num 0))
    by (unfold count_or0; by rewrite lookup_empty).
  split; [exact Hz|].
  apply (bar_empty rnd Hmono Hint); [exact Hz|].
  apply maxVal_numeric. intros k' v _ Hv. by rewrite lookup_empty in Hv.
Qed.

Lemma process_missing_counts_witness :
  exists bars,
    charts_drawn (fun q => q) 600 300
      (btn_process_click (fun _ => "0") "items is undefined" "2024-01-01"
         reply_without_counts) = [ bars ] /\
    length bars = 3 /\
    Forall (fun b => bar_val b = Number (Num 0) /\ bar_bh b = Num 0) bars.
Proof.
  apply (process_missing_counts (fun q => q) 600 300 (fun _ => "0")
           "items is undefined" "2024-01-01").
  - intros x y Hxy. exact Hxy.
  - intros z _. reflexivity.
  - discriminate.
Defined.

End DashboardFacts.

(** * Part IV: facts about the engine *)

Module EngineFacts.

Import Engine.

Section Facts.

Context {model : Model}.

(** ** Facts about the mail store *)

Lemma relocate_ids (i : MsgId) (dest : Folder) (mb : list Message) :
  map id (relocate i dest mb) = map id mb.
Proof.
  unfold relocate. rewrite map_map. apply map_ext. intros m.
  by destruct (bool_decide (id m = i)).
Qed.

Lemma relocate_arrivals (i : MsgId) (dest : Folder) (mb : list Message) :
  arrivals (relocate i dest mb) = arrivals mb.
Proof.
  unfold arrivals, relocate. rewrite map_map. apply map_ext. intros m.
  by destruct (bool_decide (id m = i)).
Qed.

Lemma elem_of_relocate (i : MsgId) (dest : Folder) (mb : list Message) (m' : Message) :
  m' ∈ relocate i dest mb <->
  exists m, m ∈ mb /\ m' = (if bool_decide (id m = i) then in_folder dest m else m).
Proof.
  unfold relocate. rewrite list_elem_of_fmap. split.
  - intros (m & -> & Hm). eauto.
  - intros (m & Hm & ->). eauto.
Qed.

Lemma move_ok (i : MsgId) (dest : Folder) (mb mb' : list Message) (u : unit) :
  move i dest mb = (inr u, mb') ->
  mb' = relocate i dest mb /\ exists m, m ∈ mb /\ id m = i.
Proof.
  unfold move. destruct (existsb _ mb) eqn:Hex; [|discriminate].
  intros [= _ <-]. split; [reflexivity|].
  apply existsb_exists in Hex as (m & Hin & Hid).
  exists m. split; [by apply list_elem_of_In|]. by apply bool_decide_eq_true in Hid.
Qed.


(** ** Facts about the ledger *)

Lemma ledger_find_Some (i : MsgId) (l : list OutcomeRecord) (r : OutcomeRecord) :
  ledger_find i l = Some r -> r ∈ l /\ message_id r = i.
Proof.
  unfold ledger_find. intros H. apply find_some in H as [Hin Hid].
  split; [by apply list_elem_of_In | by apply bool_decide_eq_true in Hid].
Qed.

Lemma ledger_find_None (i : MsgId) (l : list OutcomeRecord) :
  ledger_find i l = None <-> i ∉ map message_id l.
Proof.
  unfold ledger_find. induction l as [|r l IH]; simpl.
  - split; [intros _; apply not_elem_of_nil | done].
  - rewrite not_elem_of_cons. case_bool_decide as Hr; split.
    + discriminate.
    + intros [Hne _]. congruence.
    + intros H. split; [congruence | by apply IH].
    + intros [_ H]. by apply IH.
Qed.

Lemma ledger_find_is_Some (i : MsgId) (l : list OutcomeRecord) :
  i ∈ map message_id l -> exists r, ledger_find i l = Some r.
Proof.
  intros Hin. destruct (ledger_find i l) as [r|] eqn:Hf; [eauto|].
  by apply ledger_find_None in Hf.
Qed.

Lemma overwrite_ids (i : MsgId) (new : OutcomeRecord) (l : list OutcomeRecord) :
  message_id new = i -> map message_id (overwrite i new l) = map message_id l.
Proof.
  intros Hnew. unfold overwrite. rewrite map_map. apply map_ext. intros r.
  case_bool_decide; congruence.
Qed.

Lemma elem_of_overwrite (i : MsgId) (new r' : OutcomeRecord) (l : list OutcomeRecord) :
  r' ∈ overwrite i new l ->
  (r' = new /\ i ∈ map message_id l) \/ (r' ∈ l /\ message_id r' <> i).
Proof.
  unfold overwrite. rewrite list_elem_of_fmap. intros (r & -> & Hr).
  case_bool_decide as Hid.
  - left. split; [reflexivity|]. rewrite <- Hid. by apply list_elem_of_fmap_2.
  - right. done.
Qed.

Lemma filter_key_absent {A K : Type} `{EqDecision K}
    (key : A -> K) (i : K) (l : list A) :
  i ∉ map key l -> filter (fun x => key x = i) l = [].
Proof.
  induction l as [|x l IH]; [reflexivity|]. simpl.
  rewrite not_elem_of_cons. intros [Hne Hl].
  rewrite filter_cons. case_decide; [congruence | by apply IH].
Qed.

(** Keys without repetition select at most one entry. *)
Lemma filter_key_length {A K : Type} `{EqDecision K}
    (key : A -> K) (i : K) (l : list A) :
  NoDup (map key l) -> length (filter (fun x => key x = i) l) <= 1.
Proof.
  induction l as [|x l IH]; simpl; [lia|].
  rewrite NoDup_cons. intros [Hx Hl].
  rewrite filter_cons. case_decide as Hk; [|by apply IH].
  rewrite filter_key_absent by congruence. simpl. lia.
Qed.

Lemma filter_key_present {A K : Type} `{EqDecision K}
    (key : A -> K) (i : K) (l : list A) (x : A) :
  NoDup (map key l) -> x ∈ l -> key x = i ->
  filter (fun y => key y = i) l = [ x ].
Proof.
  induction l as [|y l IH]; simpl; [by intros _ ?%elem_of_nil|].
  rewrite NoDup_cons. intros [Hy Hl] Hin Hk.
  rewrite filter_cons. apply elem_of_cons in Hin as [->|Hin].
  - rewrite decide_True by exact Hk.
    rewrite filter_key_absent by congruence. reflexivity.
  - assert (key y <> i) as Hne.
    { intros Heq. apply Hy. rewrite Heq, <- Hk. by apply list_elem_of_fmap_2. }
    rewrite decide_False by exact Hne. by apply IH.
Qed.

Lemma initial_consistent (mb : list Message) (c : option ClassifierUnit) :
  consistent (initial mb c).
Proof. split; simpl; constructor. Qed.

Lemma record_consistent_relocate_other
    (i : MsgId) (dest : Folder) (mb : list Message) (r : OutcomeRecord) :
  message_id r <> i ->
  record_consistent mb r -> record_consistent (relocate i dest mb) r.
Proof.
  intros Hne (Hf & (m & Hm & Hid) & Hall). split; [exact Hf|]. split.
  - exists m. split; [|exact Hid]. apply elem_of_relocate. exists m.
    split; [exact Hm|]. rewrite bool_decide_eq_false_2; [reflexivity | congruence].
  - intros m' (m0 & Hm0 & ->)%elem_of_relocate Hid'.
    case_bool_decide as Hi; simpl in *; [congruence|]. by apply Hall.
Qed.

Lemma record_consistent_relocate_new
    (i : MsgId) (l : Label) (now : Time) (mb : list Message) :
  (exists m, m ∈ mb /\ id m = i) ->
  record_consistent (relocate i (folder_of l) mb)
    {| message_id := i; assigned_label := l;
       destination_folder := folder_of l; moved_at := now |}.
Proof.
  intros (m & Hm & Hid). split; [reflexivity|]. split; simpl.
  - exists (in_folder (folder_of l) m). split; [|exact Hid].
    apply elem_of_relocate. exists m. split; [exact Hm|].
    by rewrite bool_decide_eq_true_2.
  - intros m' (m0 & Hm0 & ->)%elem_of_relocate Hid'.
    case_bool_decide as Hi; simpl in *; [reflexivity | congruence].
Qed.

(** ** One step of Process *)

Lemma process_one_outcome (now : Time) (net : Network) (st : State)
    (res : ProcessResult) (i : MsgId) :
  exists st' it,
    outcome_of now st i st' it /\
    (process_one now net (st, res) i).1 = st' /\
    items (process_one now net (st, res) i).2 = items res ++ option_list it /\
    (it = None -> moved_high (process_one now net (st, res) i).2 = moved_high res /\
                  moved_medium (process_one now net (st, res) i).2 = moved_medium res /\
                  moved_low (process_one now net (st, res) i).2 = moved_low res).
Proof.
  unfold process_one.
  destruct (ledger_find i (ledger st)) as [r|] eqn:Hfind.
  { exists st, None. simpl. rewrite app_nil_r. repeat split; constructor. }
  destruct (gets_through net (CallFetch i)); simpl;
    [|exists st, None; simpl; rewrite app_nil_r; repeat split; constructor].
  destruct (fetch i (mailbox st)) as [e|m] eqn:Hfetch.
  { exists st, None. simpl. rewrite app_nil_r. repeat split; constructor. }
  destruct (predict (classifier st) (extract m)) as [e|l] eqn:Hpred.
  { exists st, None. simpl. rewrite app_nil_r. repeat split; constructor. }
  destruct (gets_through net (CallMove i)); simpl;
    [|exists st, None; simpl; rewrite app_nil_r; repeat split; constructor].
  destruct (move i (folder_of l) (mailbox st)) as [[e|u] mb] eqn:Hmove.
  { exists st, None. simpl. rewrite app_nil_r. repeat split; constructor. }
  apply move_ok in Hmove as [-> Hex].
  eexists _, (Some _). simpl. split; [by eapply outcome_moved|].
  repeat split; discriminate.
Qed.

Lemma outcome_consistent (now : Time) (st st' : State) (i : MsgId)
    (it : option ProcessItem) :
  outcome_of now st i st' it -> consistent st -> consistent st'.
Proof.
  intros [|m l Hfind Hfetch Hpred Hex] [Hnd Hall]; [done|].
  split; simpl.
  - rewrite map_app. apply NoDup_app. split; [exact Hnd|]. split.
    + intros j Hj [->|[]%elem_of_nil]%elem_of_cons.
      by apply ledger_find_None in Hfind.
    + apply NoDup_singleton.
  - apply Forall_app. split.
    + apply Forall_forall. intros r Hr.
      apply record_consistent_relocate_other.
      * intros Heq. apply ledger_find_None in Hfind. apply Hfind.
        rewrite <- Heq. by apply list_elem_of_fmap_2.
      * rewrite Forall_forall in Hall. by apply Hall.
    + apply Forall_singleton. by apply record_consistent_relocate_new.
Qed.

Lemma extends_refl (st : State) : extends st st.
Proof. by repeat split. Qed.

Lemma extends_trans (st1 st2 st3 : State) :
  extends st1 st2 -> extends st2 st3 -> extends st1 st3.
Proof.
  intros (Ha & Hb & Hc & Hd) (Ha' & Hb' & Hc' & Hd').
  repeat split; [congruence..|]. auto.
Qed.

Lemma outcome_extends (now : Time) (st st' : State) (i : MsgId)
    (it : option ProcessItem) :
  outcome_of now st i st' it ->
  extends st st' /\
  (forall x, it = Some x -> item_id x = i /\ i ∈ map message_id (ledger st')).
Proof.
  intros [|m l Hfind Hfetch Hpred Hex].
  - split; [apply extends_refl | discriminate].
  - split.
    + repeat split; simpl.
      * apply relocate_ids.
      * apply relocate_arrivals.
      * intros j Hj. rewrite map_app. apply elem_of_app. by left.
    + intros x [= <-]. simpl. split; [reflexivity|].
      rewrite map_app. apply elem_of_app. right. simpl. apply list_elem_of_here.
Qed.

(** The whole pass of Process over a list of ids. *)
Lemma process_fold (now : Time) (net : Network) (ids : list MsgId) (st : State)
    (res : ProcessResult) :
  consistent st ->
  let out := fold_left (process_one now net) ids (st, res) in
  consistent out.1 /\ extends st out.1 /\
  (forall x, x ∈ items out.2 ->
     x ∈ items res \/ item_id x ∈ map message_id (ledger out.1)).
Proof.
  revert st res. induction ids as [|i ids IH]; intros st res Hc; cbn [fold_left].
  - split; [exact Hc|]. split; [apply extends_refl|]. auto.
  - destruct (process_one_outcome now net st res i)
      as (st1 & it & Hout & Hst & Hit & _).
    destruct (process_one now net (st, res) i) as [st1' res1] eqn:Hp.
    simpl in Hst, Hit. subst st1'.
    pose proof (outcome_consistent _ _ _ _ _ Hout Hc) as Hc1.
    destruct (outcome_extends _ _ _ _ _ Hout) as [Hext1 Hid].
    destruct (IH st1 res1 Hc1) as (Hc2 & Hext2 & Hitems).
    split; [exact Hc2|]. split; [by eapply extends_trans|].
    intros x Hx. destruct (Hitems x Hx) as [Hin|Hin]; [|by right].
    rewrite Hit in Hin. apply elem_of_app in Hin as [Hin|Hin]; [by left|].
    right. destruct it as [y|]; simpl in Hin; [|by apply elem_of_nil in Hin].
    apply list_elem_of_singleton in Hin as ->.
    destruct (Hid y eq_refl) as [-> Hy].
    destruct Hext2 as (_ & _ & _ & Hmono). by apply Hmono.
Qed.

Lemma process_consistent (date now : Time) (net : Network) (st : State) :
  consistent st ->
  consistent (process date now net st).1 /\
  extends st (process date now net st).1 /\
  (forall x, x ∈ items (process date now net st).2 ->
     item_id x ∈ map message_id (ledger (process date now net st).1)).
Proof.
  intros Hc. unfold process.
  destruct (process_fold now net (search_since date (mailbox st)) st no_result Hc)
    as (Hc' & Hext & Hitems).
  split; [exact Hc'|]. split; [exact Hext|].
  intros x Hx. destruct (Hitems x Hx) as [Hin|Hin]; [|exact Hin].
  by apply elem_of_nil in Hin.
Qed.

(** ** Promote *)

Lemma promote_move_ok (i : MsgId) (new : PromoteLabel) (now : Time)
    (st st' : State) (u : unit) :
  promote_move i new now st = (inr u, st') ->
  (exists m, m ∈ mailbox st /\ id m = i) /\
  mailbox st' = relocate i (folder_of (label_of new)) (mailbox st) /\
  ledger st' = overwrite i
                 {| message_id := i; assigned_label := label_of new;
                    destination_folder := folder_of (label_of new);
                    moved_at := now |} (ledger st) /\
  i ∈ promoted st' /\ classifier st' = classifier st.
Proof.
  unfold promote_move.
  destruct (move i (folder_of (label_of new)) (mailbox st)) as [[e|u'] mb] eqn:Hmove;
    [discriminate|].
  intros Heq. apply move_ok in Hmove as [-> Hex]. simplify_eq. simpl.
  split; [exact Hex|]. do 2 (split; [reflexivity|]). split; [|reflexivity].
  case_bool_decide; [done | apply list_elem_of_here].
Qed.

Lemma promote_move_fail (i : MsgId) (new : PromoteLabel) (now : Time)
    (st st' : State) (e : Error) :
  promote_move i new now st = (inl e, st') -> st' = st.
Proof.
  unfold promote_move.
  destruct (move i (folder_of (label_of new)) (mailbox st)) as [[e'|u'] mb];
    by intros [= _ <-].
Qed.

Lemma promote_move_state (i : MsgId) (new : PromoteLabel) (now : Time) (st : State) :
  consistent st ->
  consistent (promote_move i new now st).2 /\
  map id (mailbox (promote_move i new now st).2) = map id (mailbox st) /\
  map message_id (ledger (promote_move i new now st).2) = map message_id (ledger st).
Proof.
  intros Hc.
  destruct (promote_move i new now st) as [[e|u] st'] eqn:Hp; simpl.
  { apply promote_move_fail in Hp as ->. done. }
  apply promote_move_ok in Hp as (Hex & Hmb & Hl & _ & _).
  destruct Hc as [Hnd Hall]. unfold consistent. rewrite Hmb, Hl.
  split; [split|split].
  - by rewrite overwrite_ids.
  - apply Forall_forall. intros r' Hr'.
    apply elem_of_overwrite in Hr' as [[-> _]|[Hr' Hne]].
    + by apply record_consistent_relocate_new.
    + apply record_consistent_relocate_other; [exact Hne|].
      rewrite Forall_forall in Hall. by apply Hall.
  - apply relocate_ids.
  - by apply overwrite_ids.
Qed.

Lemma promote_state (i : MsgId) (new : PromoteLabel) (now : Time) (st : State) :
  consistent st ->
  consistent (promote i new now st).2 /\
  map id (mailbox (promote i new now st).2) = map id (mailbox st) /\
  map message_id (ledger (promote i new now st).2) = map message_id (ledger st).
Proof.
  intros Hc. unfold promote.
  destruct (ledger_find i (ledger st)) as [r|]; [|done].
  repeat case_bool_decide; try done; by apply promote_move_state.
Qed.

(** ** Any sequence of Process and Promote *)

Lemma run_invariant (ops : list Op) (st : State) :
  consistent st ->
  consistent (run ops st).1 /\
  map id (mailbox (run ops st).1) = map id (mailbox st) /\
  (forall j, j ∈ map message_id (ledger st) ->
     j ∈ map message_id (ledger (run ops st).1)) /\
  (forall j, j ∈ (run ops st).2 -> j ∈ map message_id (ledger (run ops st).1)).
Proof.
  revert st. induction ops as [|op ops IH]; intros st Hc; simpl.
  - split; [exact Hc|]. split; [reflexivity|]. split; [auto|].
    intros j []%elem_of_nil.
  - assert (Hstep : consistent (step st op).1 /\
                    map id (mailbox (step st op).1) = map id (mailbox st) /\
                    (forall j, j ∈ map message_id (ledger st) ->
                       j ∈ map message_id (ledger (step st op).1)) /\
                    (forall j, j ∈ (step st op).2 ->
                       j ∈ map message_id (ledger (step st op).1))).
    { destruct op as [date now net|i new now]; simpl.
      - destruct (process_consistent date now net st Hc) as (Hc' & Hext & Hitems).
        destruct (process date now net st) as [st' res]; simpl in *.
        destruct Hext as (Hids & _ & _ & Hmono).
        split; [exact Hc'|]. split; [exact Hids|]. split; [exact Hmono|].
        intros j (x & -> & Hx)%list_elem_of_fmap. by apply Hitems.
      - destruct (promote_state i new now st Hc) as (Hc' & Hids & Hl).
        split; [exact Hc'|]. split; [exact Hids|]. split.
        + intros j Hj. by rewrite Hl.
        + intros j []%elem_of_nil. }
    destruct (step st op) as [st1 moved1]; simpl in Hstep.
    destruct Hstep as (Hc1 & Hids1 & Hmono1 & Hmoved1).
    destruct (IH st1 Hc1) as (Hc2 & Hids2 & Hmono2 & Hmoved2).
    destruct (run ops st1) as [st2 moved2]; simpl in *.
    split; [exact Hc2|]. split; [congruence|]. split; [auto|].
    intros j [Hj|Hj]%elem_of_app; auto.
Qed.

(** ** Running Process again *)

Lemma fetch_relocate_other (i j : MsgId) (dest : Folder) (mb : list Message) :
  j <> i -> fetch j (relocate i dest mb) = fetch j mb.
Proof.
  intros Hne. unfold fetch. induction mb as [|m mb IH]; [reflexivity|].
  simpl. destruct (bool_decide (id m = i)) eqn:Hi; simpl.
  - apply bool_decide_eq_true in Hi.
    rewrite !bool_decide_eq_false_2 by congruence. exact IH.
  - destruct (bool_decide (id m = j)); [reflexivity | exact IH].
Qed.

Lemma existsb_relocate (i j : MsgId) (dest : Folder) (mb : list Message) :
  existsb (fun m => bool_decide (id m = j)) (relocate i dest mb)
  = existsb (fun m => bool_decide (id m = j)) mb.
Proof.
  induction mb as [|m mb IH]; [reflexivity|]. simpl. rewrite IH. f_equal.
  by destruct (bool_decide (id m = i)).
Qed.

Lemma movable_moved (now : Time) (st st' : State) (i : MsgId) (x : ProcessItem) :
  outcome_of now st i st' (Some x) -> movable st i = true.
Proof.
  inversion 1 as [|m l Hfind Hfetch Hpred (m0 & Hm0 & Hid)]; subst.
  unfold movable. rewrite Hfetch, Hpred.
  apply existsb_exists. exists m0. split; [by apply list_elem_of_In|].
  by apply bool_decide_eq_true.
Qed.

Lemma outcome_settled_other (now : Time) (st st' : State) (i j : MsgId)
    (it : option ProcessItem) :
  outcome_of now st i st' it -> settled st j -> settled st' j.
Proof.
  intros Hout [Hj|Hj].
  - left. destruct (outcome_extends _ _ _ _ _ Hout) as [(_ & _ & _ & Hmono) _].
    by apply Hmono.
  - destruct Hout as [|m l Hfind Hfetch Hpred Hex]; [by right|].
    destruct (decide (j = i)) as [->|Hne].
    + exfalso. unfold movable in Hj. rewrite Hfetch, Hpred in Hj.
      destruct Hex as (m0 & Hm0 & Hid).
      assert (existsb (fun m1 => bool_decide (id m1 = i)) (mailbox st) = true)
        as Hex'; [|congruence].
      apply existsb_exists. exists m0. split; [by apply list_elem_of_In|].
      by apply bool_decide_eq_true.
    + right. unfold movable in *. simpl.
      rewrite fetch_relocate_other by exact Hne.
      destruct (fetch j (mailbox st)) as [e|mj]; [reflexivity|].
      destruct (predict (classifier st) (extract mj)); [reflexivity|].
      by rewrite existsb_relocate.
Qed.

(** After its turn, an id is settled, unless a call for it timed out
    beyond the retries; the log then says so. *)
Lemma process_one_settles (now : Time) (net : Network) (st : State)
    (res : ProcessResult) (i : MsgId) :
  settled (process_one now net (st, res) i).1 i \/
  (i, TransientProtocolError) ∈ skipped (process_one now net (st, res) i).2.
Proof.
  assert (Hlog : forall r : ProcessResult,
            (i, TransientProtocolError)
              ∈ skipped (count_skipped i TransientProtocolError r)).
  { intros r. simpl. apply elem_of_app. right. apply list_elem_of_here. }
  unfold process_one, settled, movable.
  destruct (ledger_find i (ledger st)) as [r|] eqn:Hfind; simpl.
  { left. left. apply ledger_find_Some in Hfind as [Hr <-].
    by apply list_elem_of_fmap_2. }
  destruct (gets_through net (CallFetch i)); simpl; [|right; apply Hlog].
  destruct (fetch i (mailbox st)) as [e|m] eqn:Hfetch; simpl.
  { left. right. by rewrite Hfetch. }
  destruct (predict (classifier st) (extract m)) as [e|l] eqn:Hpred; simpl.
  { left. right. by rewrite Hfetch, Hpred. }
  destruct (gets_through net (CallMove i)); simpl; [|right; apply Hlog].
  left.
  destruct (move i (folder_of l) (mailbox st)) as [[e|u] mb] eqn:Hmove; simpl.
  - right. rewrite Hfetch, Hpred. unfold move in Hmove.
    destruct (existsb _ (mailbox st)); [discriminate | reflexivity].
  - left. rewrite map_app. apply elem_of_app. right. apply list_elem_of_here.
Qed.

(** The log of skipped messages only grows. *)
Lemma process_one_skipped (now : Time) (net : Network) (st : State)
    (res : ProcessResult) (i : MsgId) (e : MsgId * Error) :
  e ∈ skipped res -> e ∈ skipped (process_one now net (st, res) i).2.
Proof.
  intros He.
  assert (Hlog : forall j err, e ∈ skipped (count_skipped j err res)).
  { intros j err. simpl. apply elem_of_app. by left. }
  unfold process_one.
  destruct (ledger_find i (ledger st)); [exact He|].
  destruct (gets_through net (CallFetch i)); simpl; [|apply Hlog].
  destruct (fetch i (mailbox st)) as [err|m]; [apply Hlog|].
  destruct (predict (classifier st) (extract m)) as [err|l]; [apply Hlog|].
  destruct (gets_through net (CallMove i)); simpl; [|apply Hlog].
  destruct (move i (folder_of l) (mailbox st)) as [[err|u] mb]; [apply Hlog|].
  exact He.
Qed.

Lemma process_fold_skipped (now : Time) (net : Network) (ids : list MsgId)
    (st : State) (res : ProcessResult) (e : MsgId * Error) :
  e ∈ skipped res -> e ∈ skipped (fold_left (process_one now net) ids (st, res)).2.
Proof.
  revert st res. induction ids as [|i ids IH]; intros st res He; cbn [fold_left];
    [exact He|].
  pose proof (process_one_skipped now net st res i e He) as He1.
  destruct (process_one now net (st, res) i) as [st1 res1]. by apply IH.
Qed.

(** On a settled id, Process moves nothing and counts nothing, whatever
    the network. *)
Lemma process_one_settled (now : Time) (net : Network) (st : State)
    (res : ProcessResult) (i : MsgId) :
  settled st i ->
  (process_one now net (st, res) i).1 = st /\
  items (process_one now net (st, res) i).2 = items res /\
  moved_counts (process_one now net (st, res) i).2 = moved_counts res.
Proof.
  intros Hs. unfold process_one.
  destruct (ledger_find i (ledger st)) as [r|] eqn:Hfind; [done|].
  destruct Hs as [Hin|Hmv]; [by apply ledger_find_None in Hfind|].
  unfold movable in Hmv.
  destruct (gets_through net (CallFetch i)); simpl; [|done].
  destruct (fetch i (mailbox st)) as [e|m]; [done|].
  destruct (predict (classifier st) (extract m)) as [e|l]; [done|].
  destruct (gets_through net (CallMove i)); simpl; [|done].
  unfold move. by rewrite Hmv.
Qed.

Lemma process_fold_extends (now : Time) (net : Network) (ids : list MsgId)
    (st : State) (res : ProcessResult) :
  extends st (fold_left (process_one now net) ids (st, res)).1.
Proof.
  revert st res. induction ids as [|i ids IH]; intros st res; cbn [fold_left].
  - apply extends_refl.
  - destruct (process_one_outcome now net st res i) as (st1 & it & Hout & Hst & _).
    destruct (process_one now net (st, res) i) as [st1' res1].
    simpl in Hst. subst st1'.
    eapply extends_trans; [|apply IH].
    by destruct (outcome_extends _ _ _ _ _ Hout).
Qed.

(** A pass settles every id of its list that it does not log as timed
    out, and keeps settled ids so. *)
Lemma process_fold_settles (now : Time) (net : Network) (ids : list MsgId)
    (st : State) (res : ProcessResult) (j : MsgId) :
  j ∈ ids \/ settled st j ->
  settled (fold_left (process_one now net) ids (st, res)).1 j \/
  (j, TransientProtocolError)
    ∈ skipped (fold_left (process_one now net) ids (st, res)).2.
Proof.
  revert st res. induction ids as [|i ids IH]; intros st res Hj; cbn [fold_left].
  - destruct Hj as [[]%elem_of_nil|Hj]. by left.
  - destruct (process_one_outcome now net st res i) as (st1 & it & Hout & Hst & _).
    pose proof (process_one_settles now net st res i) as Hi.
    destruct (process_one now net (st, res) i) as [st1' res1].
    simpl in Hst, Hi. subst st1'.
    destruct Hj as [[->|Hj]%elem_of_cons|Hj].
    + destruct Hi as [Hi|Hi]; [apply IH; by right|].
      right. by apply process_fold_skipped.
    + apply IH. by left.
    + apply IH. right. by eapply outcome_settled_other.
Qed.

(** A pass over settled ids changes nothing. *)
Lemma process_fold_settled (now : Time) (net : Network) (ids : list MsgId)
    (st : State) (res : ProcessResult) :
  Forall (settled st) ids ->
  (fold_left (process_one now net) ids (st, res)).1 = st /\
  items (fold_left (process_one now net) ids (st, res)).2 = items res /\
  moved_counts (fold_left (process_one now net) ids (st, res)).2 = moved_counts res.
Proof.
  revert res. induction ids as [|i ids IH]; intros res Hall; cbn [fold_left];
    [done|].
  apply Forall_cons in Hall as [Hi Hall].
  destruct (process_one_settled now net st res i Hi) as (Hst & Hit & Hcnt).
  destruct (process_one now net (st, res) i) as [st1 res1]. simpl in *. subst st1.
  destruct (IH res1 Hall) as (Hst' & Hit' & Hcnt'). by rewrite Hst', Hit', Hcnt'.
Qed.

(** C2, as the engine has it: when the first run of Process abandoned no
    message for a timeout, a second run with the same start date, with
    no new mail in between and whatever the network then, moves no
    message: it leaves the mail store and the ledger as the first run
    left them, its outcome list is empty and its counts per label are
    zero. *)
Theorem process_idempotent (date now1 now2 : Time) (net1 net2 : Network)
    (st : State) :
  none_timed_out (process date now1 net1 st).2 ->
  (process date now2 net2 (process date now1 net1 st).1).1
    = (process date now1 net1 st).1 /\
  items (process date now2 net2 (process date now1 net1 st).1).2 = [] /\
  moved_counts (process date now2 net2 (process date now1 net1 st).1).2
    = (0, 0, 0).
Proof.
  intros Hcalm. set (st1 := (process date now1 net1 st).1).
  assert (Hsearch : search_since date (mailbox st1) = search_since date (mailbox st)).
  { unfold search_since.
    destruct (process_fold_extends now1 net1 (search_since date (mailbox st)) st
                no_result) as (_ & Harr & _).
    fold (process date now1 net1 st) in Harr. fold st1 in Harr. by rewrite Harr. }
  apply (process_fold_settled now2 net2 (search_since date (mailbox st1)) st1
           no_result).
  rewrite Hsearch. apply Forall_forall. intros j Hj.
  destruct (process_fold_settles now1 net1 (search_since date (mailbox st)) st
              no_result j (or_introl Hj)) as [Hs|Hlog]; [exact Hs|].
  exfalso. unfold none_timed_out in Hcalm. rewrite Forall_forall in Hcalm.
  by apply (Hcalm _ Hlog).
Qed.

(** C1: after any sequence of Process and Promote from an empty ledger,
    the ledger holds at most one record for any message id; and a
    message that went through Process has exactly one record, whose
    folder is the one mapped to its label, and the mail store (which
    gives each message one id) holds the message in that folder only. *)
Theorem one_record_per_message
    (mb : list Message) (c : option ClassifierUnit) (ops : list Op) (i : MsgId) :
  let st := (run ops (initial mb c)).1 in
  let moved := (run ops (initial mb c)).2 in
  length (records_of i (ledger st)) <= 1 /\
  (NoDup (map id mb) -> i ∈ moved ->
   exists r, records_of i (ledger st) = [ r ] /\
             destination_folder r = folder_of (assigned_label r) /\
             folders_of i (mailbox st) = [ destination_folder r ]).
Proof.
  intros st moved.
  destruct (run_invariant ops (initial mb c) (initial_consistent mb c))
    as ([Hnd Hall] & Hids & _ & Hmoved).
  fold st in Hnd, Hall, Hids, Hmoved. fold moved in Hmoved.
  split; [by apply filter_key_length|].
  intros Hmb Hi. apply Hmoved in Hi.
  apply list_elem_of_fmap in Hi as (r & -> & Hr).
  exists r. split; [by apply filter_key_present|].
  rewrite Forall_forall in Hall. destruct (Hall r Hr) as (Hf & (m & Hm & Hid) & Hin).
  split; [exact Hf|].
  unfold folders_of.
  rewrite (filter_key_present id (message_id r) (mailbox st) m); auto.
  - simpl. f_equal. by apply Hin.
  - rewrite Hids. exact Hmb.
Qed.

(** ** Promote, twice *)





(** ** The Classifier Store *)



End Facts.

(** ** The end-to-end scenario of section 8, run on the small instance *)

#[local] Existing Instance demo_model.

Example scenario_process :
  let res := (process 20240101%N 20240105%N calm demo_start).2 in
  (moved_high res, moved_medium res, moved_low res) = (1, 1, 1) /\
  map (fun x => (item_id x, item_priority x)) (items res)
    = [ (1, MEDIUM); (2, LOW); (3, HIGH) ] /\
  map (fun m => (id m, current_folder m)) (mailbox demo_processed)
    = [ (1, "AI_MEDIUM_PRIORITY"); (2, "AI_LOW_PRIORITY_RECOVERY");
        (3, "AI_HIGH_PRIORITY") ].
Proof. vm_compute. done. Qed.

Example scenario_recovery :
  map message_id (recovery 20240101%N demo_processed) = [ 2 ] /\
  recovery 20240101%N demo_promoted = [].
Proof. vm_compute. done. Qed.

Lemma one_record_per_message_witness :
  length (records_of 2 (ledger (run demo_ops demo_start).1)) <= 1 /\
  exists r, records_of 2 (ledger (run demo_ops demo_start).1) = [ r ] /\
            destination_folder r = folder_of (assigned_label r) /\
            folders_of 2 (mailbox (run demo_ops demo_start).1)
              = [ destination_folder r ].
Proof.
  destruct (one_record_per_message demo_mailbox (Some demo_unit) demo_ops 2)
    as [Hle Hone].
  split; [exact Hle|]. apply Hone.
  - apply (bool_decide_unpack _). vm_compute. exact I.
  - apply (bool_decide_unpack _). vm_compute. exact I.
Defined.

Lemma process_idempotent_witness :
  (process 20240101%N 20240109%N stormy demo_processed).1 = demo_processed /\
  items (process 20240101%N 20240109%N stormy demo_processed).2 = [] /\
  moved_counts (process 20240101%N 20240109%N stormy demo_processed).2 = (0, 0, 0).
Proof.
  apply (process_idempotent 20240101%N 20240105%N 20240109%N calm stormy demo_start).
  unfold none_timed_out. vm_compute. constructor.
Defined.

(** C2, as stated, fails: in a first run the fetch of the newsletter
    times out beyond the retries, so the message is abandoned with no
    record; no mail arrives; the second run moves the newsletter and
    counts it under LOW. *)
Lemma process_after_timeout_moves :
  map item_id (items demo_interrupted.2) = [ 1; 3 ] /\
  skipped demo_interrupted.2 = [ (2, TransientProtocolError) ] /\
  arrivals (mailbox demo_interrupted.1) = arrivals demo_mailbox /\
  map item_id (items demo_resumed.2) = [ 2 ] /\
  moved_counts demo_resumed.2 = (0, 0, 1).
Proof. vm_compute. done. Qed.


Example predict_untrained : @predict demo_model None [ 1%Z; 2%Z ] = inr MEDIUM.
Proof. reflexivity. Qed.

Example retrain_two_samples :
  retrain_and_activate (Some demo_unit) [ demo_sample 1 HIGH; demo_sample 2 LOW ]
  = (inl InsufficientData, Some demo_unit).
Proof. reflexivity. Qed.

Example retrain_one_label :
  retrain_and_activate (Some demo_unit)
    (map (fun i => demo_sample i LOW) [ 1; 2; 3; 4; 5; 6 ])
  = (inl InsufficientData, Some demo_unit).
Proof. reflexivity. Qed.

Example retrain_enough :
  (retrain_and_activate (Some demo_unit)
     (demo_sample 0 HIGH :: map (fun i => demo_sample i LOW) [ 1; 2; 3; 4; 5 ])).1
  = inr tt.
Proof. reflexivity. Qed.

End EngineFacts.
